(** * Machiavellian: the power-calculation notebooks

    A shallow embedding of the two orchestration notebooks of the
    repository,

    - "2-Power for Parametric Distributions.ipynb" (one-sample t, independent
      t, ANOVA with 3 and 8 groups, Pearson correlation), and
    - the distance-based notebook (PERMANOVA and Mantel),

    and the properties of their counts schedules, estimator calls, summary
    records and overwrite/skip loops.

    The notebooks are scripts over a file system, numpy's global random
    state and a handful of library callables (scipy, skbio, pandas,
    [machivellian.power.subsample_power], [machivellian.traditional]).  The
    file system and the random state are an explicit world threaded through
    a state-and-exception monad; the library callables are the fields of the
    class [Externals]. *)

From Stdlib Require Import ZArith QArith Lia Sorted.
From stdpp Require Import base gmap strings list pretty.

Local Open Scope Z_scope.

(** ** Paths

    A path is the list of its components: ['./simulations/'] is
    [["."; "simulations"]], and [os.path.join] of a directory with a
    relative path appends the components (a trailing separator, as in
    ['power/mantel/'], adds no component). *)

Module Path.

Abbreviation path := (list string).

(** [os.path.join(a, b)] for a relative [b]. *)
Definition join (a b : path) : path := a ++ b.

(** The directory a file lives in. *)
Definition parent (p : path) : path := removelast p.

(** Every non-empty prefix of [p]: the directories [os.makedirs(p)]
    makes sure exist, outermost first. *)
Fixpoint prefixes (p : path) : list path :=
  match p with
  | [] => []
  | c :: p' => [c] :: map (cons c) (prefixes p')
  end.

(** ['simulation_%i.p' % i] *)
Definition simulation_file (i : nat) : string :=
  "simulation_" +:+ pretty i +:+ ".p".

End Path.
Import Path.

(** ** numpy

    [np.arange(start, stop, step)] on integers, for a positive [step] (the
    notebooks only ever step by 10): [ceil((stop - start) / step)] values
    [start + k * step], none when [stop <= start]. *)

Module Np.

Definition arange_len (start stop step : Z) : nat :=
  Z.to_nat ((stop - start + step - 1) / step).

Definition arange (start stop step : Z) : list Z :=
  if decide (0 < step)
  then map (fun k : nat => start + Z.of_nat k * step)
           (seq 0 (arange_len start stop step))
  else [].

(** [np.hstack] of a list of 1-d arrays. *)
Definition hstack {A} (arrays : list (list A)) : list A := concat arrays.

End Np.

(** [len(s)] as a Python integer. *)
Definition len {A} (l : list A) : Z := Z.of_nat (length l).

(** [min([len(s) for s in samples])], for a non-empty [samples]; Python
    raises [ValueError] on an empty list, which is [None] here. *)
Definition min_len {A} (samples : list (list A)) : option Z :=
  match samples with
  | [] => None
  | s :: rest => Some (foldr (fun t m => Z.min (len t) m) (len s) rest)
  end.


(** [samples[0]], then [len]: [IndexError] (here [None]) on an empty list. *)
Definition len_first {A} (samples : list (list A)) : option Z :=
  len <$> head samples.

(** ** Data

    Observation identifiers are strings; floats (p-values, power values,
    [alpha], raw observations) are carried around but never computed on, and
    are rationals here. *)

Abbreviation ident := string.

(** A [pandas.Series] of group labels: its rows, index label first, in row
    order. *)
Abbreviation Series := (list (ident * Z)).

(** An [skbio.DistanceMatrix]: its ids and its square data. *)
Record DistanceMatrix := {
  dm_ids : list ident;
  dm_data : list (list Q)
}.

(** The [draw_mode] keyword of the estimator. *)
Inductive DrawMode := Independent | Matched.

(** The exceptions the notebooks can meet. *)
Inductive exn :=
| ValueError (msg : string)
| FileNotFoundError (p : path)
| FileExistsError (p : path)
| IsADirectoryError (p : path)
| UnpicklingError (p : path)
| KeyError (key : string)
| IndexError
| TypeError
| LibraryError (msg : string).

(** The value of [simulation['samples']], in the three shapes the wrappers
    unpack: [(dm, groups)] for PERMANOVA, [(x, y)] for Mantel, a list of
    vectors for the parametric tests. *)
Inductive samples_t :=
| Grouped (dm : DistanceMatrix) (groups : Series)
| Paired (x y : DistanceMatrix)
| Vectors (vs : list (list Q)).

(** The summary dictionary a wrapper pickles; the fields are its keys.
    Only the Mantel wrapper writes ['depth']. *)
Module PowerSummary.
Record t := {
  emperical : list (list Q);
  traditional : option (list Q);
  original_p : Q;
  num_obs : Z;
  counts : list Z;
  alpha : Q;
  depth : option nat
}.
End PowerSummary.

(** What a pickle file holds: a simulation (a dictionary with a
    ['samples'] entry), a summary written by an earlier run, or bytes that
    [pickle.load] rejects. *)
Inductive pickled :=
| Simulation (samples : samples_t)
| Summary (s : PowerSummary.t)
| Corrupt.

(** ** State and exceptions

    A computation over a state [S] returns the state it reached together
    with a value or the exception it raised. *)

Definition SE (S X : Type) : Type := S -> (exn + X) * S.

#[global] Instance SE_ret {S} : MRet (SE S) :=
  fun X (x : X) s => (inr x, s).

#[global] Instance SE_bind {S} : MBind (SE S) :=
  fun X Y (k : X -> SE S Y) (m : SE S X) s =>
    match m s with
    | (inr x, s') => k x s'
    | (inl e, s') => (inl e, s')
    end.

Definition raise {S X} (e : exn) : SE S X := fun s => (inl e, s).

(** A library call that cannot touch the state. *)
Definition pure_call {S X} (r : exn + X) : SE S X := fun s => (r, s).

(** [None] raises [e]. *)
Definition or_raise {S X} (o : option X) (e : exn) : SE S X :=
  match o with
  | Some x => mret x
  | None => raise e
  end.

(** [for x in l: body(x)] *)
Fixpoint for_each {S A} (l : list A) (body : A -> SE S unit) : SE S unit :=
  match l with
  | [] => mret tt
  | x :: l' => body x ;; for_each l' body
  end.

(** ** The estimator call

    The keyword arguments of one call of [subsample_power] as the call site
    writes them: [None] is a keyword the call leaves out, so that the
    estimator's own default applies.  [RNG] is numpy's random state, which
    the permutation tests and the estimator draw from. *)

Record power_call (RNG A : Type) := {
  pc_test : list (list A) -> SE RNG Q;
  pc_samples : list (list A);
  pc_counts : list Z;
  pc_num_iter : nat;
  pc_num_runs : nat;
  pc_alpha : option Q;
  pc_bootstrap : option bool;
  pc_draw_mode : option DrawMode
}.
Arguments pc_test {RNG A}.
Arguments pc_samples {RNG A}.
Arguments pc_counts {RNG A}.
Arguments pc_num_iter {RNG A}.
Arguments pc_num_runs {RNG A}.
Arguments pc_alpha {RNG A}.
Arguments pc_bootstrap {RNG A}.
Arguments pc_draw_mode {RNG A}.

(** ** Library callables

    Everything the notebooks import and call.  [subsample_power] and the
    [trad_calc_*] functions are [machivellian.power] and
    [machivellian.traditional]; the rest is numpy, pandas, scipy and skbio.
    [trad_calc_*] take the positional arguments ([*samples]) as a list. *)

Class Externals := {
  RNG : Type;
  np_random_seed : Z -> RNG;
  pandas_loc : Series -> list ident -> exn + Series;
  dm_filter : DistanceMatrix -> list ident -> exn + DistanceMatrix;
  skbio_permanova : DistanceMatrix -> Series -> nat -> SE RNG Q;
  skbio_mantel : DistanceMatrix -> DistanceMatrix -> nat -> SE RNG Q;
  scipy_ttest_1samp : list Q -> Q -> exn + Q;
  scipy_ttest_ind : list Q -> list Q -> exn + Q;
  scipy_f_oneway : list (list Q) -> exn + Q;
  scipy_pearsonr : list (list Q) -> exn + Q;
  trad_calc_ttest_1 : list (list Q) -> Q -> list Z -> exn + list Q;
  trad_calc_ttest_ind : list (list Q) -> list Z -> exn + list Q;
  trad_calc_anova : list (list Q) -> list Z -> exn + list Q;
  trad_calc_pearson : list (list Q) -> list Z -> exn + list Q;
  subsample_power : forall A : Type, power_call RNG A -> SE RNG (list (list Q))
}.




(** ** The world

    The directories and pickle files on disk and numpy's global random
    state.  [events] is a ghost log of what a run did, in order: the pickle
    files it opened for reading, the estimator calls it made (with the
    keywords of each call), the summaries it dumped and the lines it
    printed. *)

Record call_info := {
  ci_pool : list nat;
  ci_counts : list Z;
  ci_num_iter : nat;
  ci_num_runs : nat;
  ci_alpha : option Q;
  ci_bootstrap : option bool;
  ci_draw_mode : option DrawMode
}.

Inductive event :=
| EvLoad (p : path)
| EvEstimate (c : call_info)
| EvDump (p : path)
| EvPrint (line : string).

Definition info_of_call {RNG A} (c : power_call RNG A) : call_info :=
  {| ci_pool := map length (pc_samples c);
     ci_counts := pc_counts c;
     ci_num_iter := pc_num_iter c;
     ci_num_runs := pc_num_runs c;
     ci_alpha := pc_alpha c;
     ci_bootstrap := pc_bootstrap c;
     ci_draw_mode := pc_draw_mode c |}.

Section World.
Context `{E : Externals}.

Record World := {
  dirs : gset path;
  files : gmap path pickled;
  rng : RNG;
  events : list event
}.

Abbreviation M := (SE World).

Definition log (ev : event) : M unit := fun w =>
  (inr tt, {| dirs := dirs w; files := files w; rng := rng w;
              events := events w ++ [ev] |}).

(** Runs a computation on the random state inside the world. *)
Definition with_rng {X} (r : SE RNG X) : M X := fun w =>
  let '(x, g) := r (rng w) in
  (x, {| dirs := dirs w; files := files w; rng := g; events := events w |}).

(** [np.random.seed(n)] *)
Definition np_seed (n : Z) : M unit := fun w =>
  (inr tt, {| dirs := dirs w; files := files w; rng := np_random_seed n;
              events := events w |}).

(** [os.path.exists(p)] *)
Definition os_path_exists (p : path) : M bool := fun w =>
  (inr (bool_decide (p ∈ dirs w \/ p ∈ dom (files w))), w).

(** [os.makedirs(p)]: makes [p] and the directories above it. *)
Definition os_makedirs (p : path) : M unit := fun w =>
  if bool_decide (p ∈ dirs w \/ p ∈ dom (files w)) then (inl (FileExistsError p), w)
  else (inr tt, {| dirs := dirs w ∪ list_to_set (prefixes p); files := files w;
                   rng := rng w; events := events w |}).

(** [pickle.load] of the file at [p], once it is open. *)
Definition unpickle (p : path) : M pickled := fun w =>
  match files w !! p with
  | None => (inl (FileNotFoundError p), w)
  | Some Corrupt => (inl (UnpicklingError p), w)
  | Some obj => (inr obj, w)
  end.

(** [with open(p, 'rb') as f_: pickle.load(f_)] *)
Definition pickle_load (p : path) : M pickled :=
  log (EvLoad p) ;; unpickle p.

(** [with open(p, 'wb') as f_: pickle.dump(s, f_)] *)
Definition pickle_dump (s : PowerSummary.t) (p : path) : M unit := fun w =>
  if bool_decide (p ∈ dirs w) then (inl (IsADirectoryError p), w)
  else if bool_decide (parent p ∈ dirs w)
  then (inr tt, {| dirs := dirs w; files := <[p := Summary s]> (files w);
                   rng := rng w; events := events w ++ [EvDump p] |})
  else (inl (FileNotFoundError p), w).

(** [print(line)] *)
Definition print (line : string) : M unit := log (EvPrint line).

(** [simulation['samples']] *)
Definition get_samples (simulation : pickled) : M samples_t :=
  match simulation with
  | Simulation s => mret s
  | _ => raise (KeyError "samples")
  end.

(** One call of [subsample_power]. *)
Definition call_subsample_power {A} (c : power_call RNG A) : M (list (list Q)) :=
  log (EvEstimate (info_of_call c)) ;;
  with_rng (subsample_power A c).

End World.

Abbreviation M := (SE World).

(** ** The distance-based notebook: PERMANOVA and Mantel *)

Module Distance.

(** The configuration cells. *)
Record Config := {
  num_cpus : nat;
  overwrite : bool;
  num_rounds : nat;
  depth : nat;
  alpha : Q
}.

Definition notebook_config : Config :=
  {| num_cpus := 1; overwrite := false; num_rounds := 100;
     depth := 99; alpha := 5 # 100 |}.

Definition sim_location : path := ["."; "simulations"].

(** The keys of [distributions]. *)
Inductive family := mantel | permanova.

Definition name (test : family) : string :=
  match test with
  | mantel => "mantel"
  | permanova => "permanova"
  end.

Definition sim_dir (test : family) : path :=
  join sim_location ["data"; name test].

Definition power_dir (test : family) : path :=
  join sim_location ["power"; name test].

Definition simulation_fp (test : family) (i : nat) : path :=
  join (sim_dir test) [simulation_file i].

Definition power_fp (test : family) (i : nat) : path :=
  join (power_dir test) [simulation_file i].

(** [[groups.loc[groups == i].index for i in [0, 1]]] *)
Definition permanova_samples (groups : Series) : list (list ident) :=
  map (fun i : Z => map fst (filter (fun row => row.2 = i) groups)) [0; 1].

(** [np.arange(5, min([len(s) for s in samples]) - 10, 10)] *)
Definition permanova_counts (samples : list (list ident)) : option (list Z) :=
  (fun m => Np.arange 5 (m - 10) 10) <$> min_len samples.

(** [[np.array(x.ids)]] *)
Definition mantel_samples (x : DistanceMatrix) : list (list ident) :=
  [dm_ids x].

(** [np.arange(5, len(samples[0]) - 10, 10)] *)
Definition mantel_counts (samples : list (list ident)) : option (list Z) :=
  (fun n => Np.arange 5 (n - 10) 10) <$> len_first samples.

Section Wrappers.
Context `{E : Externals}.

(** The [test] closure of the PERMANOVA wrapper. *)
Definition permanova_test (dm : DistanceMatrix) (groups : Series) (depth : nat)
    (ids : list (list ident)) : SE RNG Q :=
  let obs := Np.hstack ids in
  dm' ← pure_call (dm_filter dm obs);
  grouping ← pure_call (pandas_loc groups obs);
  skbio_permanova dm' grouping depth.

(** The [test] closure of the Mantel wrapper. *)
Definition mantel_test (x y : DistanceMatrix) (depth : nat)
    (samples : list (list ident)) : SE RNG Q :=
  obs ← or_raise (head samples) IndexError;
  x' ← pure_call (dm_filter x obs);
  y' ← pure_call (dm_filter y obs);
  skbio_mantel x' y' depth.

(** The keywords of the PERMANOVA wrapper's call of [subsample_power]. *)
Definition permanova_call (dm : DistanceMatrix) (groups : Series)
    (counts : list Z) (alpha : Q) (depth : nat) : power_call RNG ident :=
  {| pc_test := permanova_test dm groups depth;
     pc_samples := permanova_samples groups;
     pc_counts := counts;
     pc_num_iter := 100;
     pc_num_runs := 5;
     pc_alpha := Some alpha;
     pc_bootstrap := Some false;
     pc_draw_mode := None |}.

(** The keywords of the Mantel wrapper's call of [subsample_power]. *)
Definition mantel_call (x y : DistanceMatrix) (counts : list Z)
    (alpha : Q) (depth : nat) : power_call RNG ident :=
  {| pc_test := mantel_test x y depth;
     pc_samples := mantel_samples x;
     pc_counts := counts;
     pc_num_iter := 100;
     pc_num_runs := 5;
     pc_alpha := Some alpha;
     pc_bootstrap := Some false;
     pc_draw_mode := Some Matched |}.

Definition calculate_permanova_power (simulation : pickled) (alpha : Q)
    (depth : nat) (power_fp : path) : M unit :=
  s ← get_samples simulation;
  match s with
  | Grouped dm groups =>
      let samples := permanova_samples groups in
      counts ← or_raise (permanova_counts samples)
                 (ValueError "min() arg is an empty sequence");
      power ← call_subsample_power (permanova_call dm groups counts alpha depth);
      p ← with_rng (permanova_test dm groups depth samples);
      n ← or_raise (len_first samples) IndexError;
      pickle_dump {| PowerSummary.emperical := power;
                     PowerSummary.traditional := None;
                     PowerSummary.original_p := p;
                     PowerSummary.num_obs := n;
                     PowerSummary.counts := counts;
                     PowerSummary.alpha := alpha;
                     PowerSummary.depth := None |} power_fp
  | _ => raise TypeError
  end.

Definition calculate_mantel_power (simulation : pickled) (power_fp : path)
    (alpha : Q) (depth : nat) : M unit :=
  s ← get_samples simulation;
  match s with
  | Paired x y =>
      let samples := mantel_samples x in
      counts ← or_raise (mantel_counts samples) IndexError;
      power ← call_subsample_power (mantel_call x y counts alpha depth);
      p ← with_rng (mantel_test x y depth samples);
      n ← or_raise (len_first samples) IndexError;
      pickle_dump {| PowerSummary.emperical := power;
                     PowerSummary.traditional := None;
                     PowerSummary.original_p := p;
                     PowerSummary.num_obs := n;
                     PowerSummary.counts := counts;
                     PowerSummary.alpha := alpha;
                     PowerSummary.depth := Some depth |} power_fp
  | _ => raise TypeError
  end.

(** [distributions[test]['function']], applied to [sim_kwargs]. *)
Definition sim_func (test : family) (simulation : pickled) (alpha : Q)
    (depth : nat) (power_fp : path) : M unit :=
  match test with
  | permanova => calculate_permanova_power simulation alpha depth power_fp
  | mantel => calculate_mantel_power simulation power_fp alpha depth
  end.

(** [Pool(num_cpus)] *)
Definition Pool (num_cpus : nat) : M unit :=
  if decide (num_cpus = 0%nat)
  then raise (ValueError "Number of processes must be at least 1")
  else mret tt.

(** [p.apply(f, kwds=...)]: the call runs in a worker, the notebook waits
    for it, and an exception of the worker is raised again in the
    notebook.  The workers are forked after the seeding; with the one
    worker of the notebook the random state is threaded from call to
    call, as here. *)
Definition Pool_apply (f : M unit) : M unit := f.

(** The makedirs cell, for one entry of [distributions]. *)
Definition make_dirs (test : family) : M unit :=
  e ← os_path_exists (sim_dir test);
  (if negb e then os_makedirs (sim_dir test) else mret tt) ;;
  e' ← os_path_exists (power_dir test);
  if negb e' then os_makedirs (power_dir test) else mret tt.

(** The body of the inner loop: one (replicate, test family) work item. *)
Definition work_item (cfg : Config) (i : nat) (test : family) : M unit :=
  simulation ← pickle_load (simulation_fp test i);
  e ← os_path_exists (power_fp test i);
  if overwrite cfg || negb e
  then print (name test +:+ " sim is a go!") ;;
       Pool_apply (sim_func test simulation (alpha cfg) (depth cfg) (power_fp test i))
  else mret tt.

(** The last cell: the pool and the two nested loops.  [items] is
    [distributions.items()], whose order Python 3.5 does not fix.  The
    closing [p.close()] and [p.join()] change nothing. *)
Definition power_loop (cfg : Config) (items : list family) : M unit :=
  Pool (num_cpus cfg) ;;
  for_each (seq 0 (num_rounds cfg)) (fun i =>
    for_each items (fun test => work_item cfg i test)).

(** The notebook, top to bottom. *)
Definition main (cfg : Config) (items : list family) : M unit :=
  np_seed 25 ;;
  e ← os_path_exists sim_location;
  if negb e
  then raise (ValueError "The simulations do not exist. Go back and simulate some data!")
  else
    for_each items make_dirs ;;
    power_loop cfg items.

End Wrappers.
End Distance.

(** ** The parametric notebook: t tests, ANOVA and Pearson's R *)

Module Parametric.

(** The configuration cells.  The notebook spells the last one
    [run_runs]. *)
Record Config := {
  num_rounds : nat;
  overwrite : bool;
  counts : list Z;
  alpha : Q;
  num_iter : nat;
  run_runs : nat
}.

Definition notebook_config : Config :=
  {| num_rounds := 100; overwrite := false;
     counts := Np.arange 5 100 10; alpha := 5 # 100;
     num_iter := 100; run_runs := 5 |}.

Definition sim_location : path := ["."; "simulations"].

Inductive family := ttest_1 | ttest_ind | anova_3 | anova_8 | correlation.

Definition parametric : list family :=
  [ttest_1; ttest_ind; anova_3; anova_8; correlation].

Definition name (test_name : family) : string :=
  match test_name with
  | ttest_1 => "ttest_1"
  | ttest_ind => "ttest_ind"
  | anova_3 => "anova_3"
  | anova_8 => "anova_8"
  | correlation => "correlation"
  end.

Definition sim_dir (test_name : family) : path :=
  join sim_location ["data"; name test_name].

Definition power_dir (test_name : family) : path :=
  join sim_location ["power"; name test_name].

Definition sim_fp (test_name : family) (i : nat) : path :=
  join (sim_dir test_name) [simulation_file i].

Definition power_fp (test_name : family) (i : nat) : path :=
  join (power_dir test_name) [simulation_file i].

Section Notebook.
Context `{E : Externals}.

Definition emp_ttest_1 (sample : list (list Q)) : exn + Q :=
  match sample with
  | s0 :: _ => scipy_ttest_1samp s0 0
  | [] => inl IndexError
  end.

Definition emp_ttest_ind (samples : list (list Q)) : exn + Q :=
  match samples with
  | [sample1; sample2] => scipy_ttest_ind sample1 sample2
  | _ => inl (ValueError "unpack")
  end.

Definition emp_anova (samples : list (list Q)) : exn + Q :=
  scipy_f_oneway samples.

Definition emp_pearson (samples : list (list Q)) : exn + Q :=
  scipy_pearsonr samples.

(** [partial(subsample_power, counts=..., num_iter=..., num_runs=...,
    test=...)], with or without [draw_mode]: the call it makes once
    [samples] is supplied. *)
Definition partial_subsample_power (counts : list Z) (num_iter num_runs : nat)
    (draw_mode : option DrawMode) (test : list (list Q) -> exn + Q)
    (samples : list (list Q)) : power_call RNG Q :=
  {| pc_test := fun s => pure_call (test s);
     pc_samples := samples;
     pc_counts := counts;
     pc_num_iter := num_iter;
     pc_num_runs := num_runs;
     pc_alpha := None;
     pc_bootstrap := None;
     pc_draw_mode := draw_mode |}.

(** An entry of [distributions]. *)
Record entry := {
  clean_name : string;
  test : list (list Q) -> exn + Q;
  trad_power : list (list Q) -> exn + list Q;
  empr_power : list (list Q) -> power_call RNG Q
}.

Definition distributions (cfg : Config) (test_name : family) : entry :=
  match test_name with
  | ttest_1 =>
      {| clean_name := "One Sample T Test";
         test := emp_ttest_1;
         trad_power := fun samples => trad_calc_ttest_1 samples 0 (counts cfg);
         empr_power := partial_subsample_power (counts cfg) 1000 3 None emp_ttest_1 |}
  | ttest_ind =>
      {| clean_name := "Independent Sample T test";
         test := emp_ttest_ind;
         trad_power := fun samples => trad_calc_ttest_ind samples (counts cfg);
         empr_power := partial_subsample_power (counts cfg) 1000 3 None emp_ttest_ind |}
  | anova_3 =>
      {| clean_name := "ANOVA (3 groups)";
         test := emp_anova;
         trad_power := fun samples => trad_calc_anova samples (counts cfg);
         empr_power := partial_subsample_power (counts cfg) 1000 3 None emp_anova |}
  | anova_8 =>
      {| clean_name := "ANOVA (8 groups)";
         test := emp_anova;
         trad_power := fun samples => trad_calc_anova samples (counts cfg);
         empr_power := partial_subsample_power (counts cfg) 1000 3 None emp_anova |}
  | correlation =>
      {| clean_name := "Pearson's R";
         test := emp_pearson;
         trad_power := fun samples => trad_calc_pearson samples (counts cfg);
         empr_power := partial_subsample_power (counts cfg) 100 5 (Some Matched) emp_pearson |}
  end.

(** The body of the inner loop: one (test family, replicate) work item. *)
Definition work_item (cfg : Config) (test_name : family) (i : nat) : M unit :=
  e ← os_path_exists (power_fp test_name i);
  if e && negb (overwrite cfg) then mret tt
  else
    simulation ← pickle_load (sim_fp test_name i);
    s ← get_samples simulation;
    match s with
    | Vectors samples =>
        traditional ← pure_call (trad_power (distributions cfg test_name) samples);
        emperical ← call_subsample_power
                      (empr_power (distributions cfg test_name) samples);
        n ← or_raise (len_first samples) IndexError;
        p ← pure_call (test (distributions cfg test_name) samples);
        pickle_dump {| PowerSummary.counts := counts cfg;
                       PowerSummary.emperical := emperical;
                       PowerSummary.traditional := Some traditional;
                       PowerSummary.num_obs := n;
                       PowerSummary.alpha := alpha cfg;
                       PowerSummary.original_p := p;
                       PowerSummary.depth := None |} (power_fp test_name i)
    | _ => raise TypeError
    end.

(** The body of the outer loop. *)
Definition family_loop (cfg : Config) (test_name : family) : M unit :=
  e ← os_path_exists (power_dir test_name);
  (if negb e then os_makedirs (power_dir test_name) else mret tt) ;;
  for_each (seq 0 (num_rounds cfg)) (work_item cfg test_name).

(** The notebook, top to bottom. *)
Definition main (cfg : Config) : M unit :=
  e ← os_path_exists sim_location;
  if negb e
  then raise (ValueError "The simulation directory does not exist.Go back and simulate some data!")
  else for_each parametric (family_loop cfg).

End Notebook.
End Parametric.

(** ** What a run leaves behind

    [exists_on_disk] is what [os.path.exists] tests.  [extends P w w'] says
    that [w'] is [w] after some more steps of a notebook: the log grew by
    events that satisfy [P], no directory or file disappeared, and a file
    changed only if the log shows a dump to it. *)

Section Extends.
Context `{E : Externals}.

Definition exists_on_disk (w : World) (p : path) : Prop :=
  p ∈ dirs w \/ p ∈ dom (files w).

Definition extends (P : event -> Prop) (w w' : World) : Prop :=
  exists evs,
    events w' = events w ++ evs /\
    Forall P evs /\
    dirs w ⊆ dirs w' /\
    dom (files w) ⊆ dom (files w') /\
    forall p, EvDump p ∉ evs -> files w' !! p = files w !! p.

Definition sound {X} (P : event -> Prop) (m : M X) : Prop :=
  forall w, extends P w (m w).2.

(** A pickle file that [pickle.load] accepts. *)
Definition readable (w : World) (p : path) : Prop :=
  exists obj, files w !! p = Some obj /\ obj <> Corrupt.

Definition is_load (ev : event) : Prop :=
  match ev with
  | EvLoad _ => True
  | _ => False
  end.

(** The events logged on the way from [w] to [w']. *)
Definition new_events (w w' : World) : list event :=
  drop (length (events w)) (events w').

End Extends.

(** The events one work item of the distance-based notebook can log. *)
Definition distance_item_event `{E : Externals} (cfg : Distance.Config)
    (i : nat) (test : Distance.family) (ev : event) : Prop :=
  match ev with
  | EvLoad p => p = Distance.simulation_fp test i
  | EvPrint line => line = Distance.name test +:+ " sim is a go!"
  | EvDump p => p = Distance.power_fp test i
  | EvEstimate c =>
      match test with
      | Distance.permanova =>
          exists dm groups counts,
            Distance.permanova_counts (Distance.permanova_samples groups) = Some counts /\
            c = info_of_call (Distance.permanova_call dm groups counts
                                (Distance.alpha cfg) (Distance.depth cfg))
      | Distance.mantel =>
          exists x y counts,
            Distance.mantel_counts (Distance.mantel_samples x) = Some counts /\
            c = info_of_call (Distance.mantel_call x y counts
                                (Distance.alpha cfg) (Distance.depth cfg))
      end
  end.

(** The events one work item of the parametric notebook can log. *)
Definition parametric_item_event `{E : Externals} (cfg : Parametric.Config)
    (test_name : Parametric.family) (i : nat) (ev : event) : Prop :=
  match ev with
  | EvLoad p => p = Parametric.sim_fp test_name i
  | EvPrint _ => False
  | EvDump p => p = Parametric.power_fp test_name i
  | EvEstimate c =>
      exists samples,
        c = info_of_call
              (Parametric.empr_power (Parametric.distributions cfg test_name) samples)
  end.

(** The configuration with [overwrite] set to [b]. *)
Definition distance_set_overwrite (b : bool) (cfg : Distance.Config) : Distance.Config :=
  {| Distance.num_cpus := Distance.num_cpus cfg;
     Distance.overwrite := b;
     Distance.num_rounds := Distance.num_rounds cfg;
     Distance.depth := Distance.depth cfg;
     Distance.alpha := Distance.alpha cfg |}.

Definition parametric_set_overwrite (b : bool) (cfg : Parametric.Config) : Parametric.Config :=
  {| Parametric.num_rounds := Parametric.num_rounds cfg;
     Parametric.overwrite := b;
     Parametric.counts := Parametric.counts cfg;
     Parametric.alpha := Parametric.alpha cfg;
     Parametric.num_iter := Parametric.num_iter cfg;
     Parametric.run_runs := Parametric.run_runs cfg |}.

(** [w'] is [w] after steps that only opened pickle files for reading: the
    same directories and files, and nothing logged but loads. *)
Definition only_loads `{E : Externals} (w w' : World) : Prop :=
  dirs w' = dirs w /\ files w' = files w /\
  exists evs, events w' = events w ++ evs /\ Forall is_load evs.

(** What a run of the distance-based notebook that returns leaves on
    disk. *)
Definition distance_complete `{E : Externals} (cfg : Distance.Config)
    (items : list Distance.family) (w : World) : Prop :=
  exists_on_disk w Distance.sim_location /\
  Distance.num_cpus cfg <> 0%nat /\
  (forall test, test ∈ items ->
     exists_on_disk w (Distance.sim_dir test) /\
     exists_on_disk w (Distance.power_dir test)) /\
  (forall i test, (i < Distance.num_rounds cfg)%nat -> test ∈ items ->
     readable w (Distance.simulation_fp test i) /\
     exists_on_disk w (Distance.power_fp test i)).

(** What a run of the parametric notebook that returns leaves on disk. *)
Definition parametric_complete `{E : Externals} (cfg : Parametric.Config)
    (w : World) : Prop :=
  exists_on_disk w Parametric.sim_location /\
  forall test_name,
    exists_on_disk w (Parametric.power_dir test_name) /\
    forall i, (i < Parametric.num_rounds cfg)%nat ->
      exists_on_disk w (Parametric.power_fp test_name i).

(** The events a whole run can log: those of its work items. *)
Definition distance_event `{E : Externals} (cfg : Distance.Config)
    (items : list Distance.family) (ev : event) : Prop :=
  exists i test,
    (i < Distance.num_rounds cfg)%nat /\ test ∈ items /\
    distance_item_event cfg i test ev.

Definition parametric_event `{E : Externals} (cfg : Parametric.Config)
    (ev : event) : Prop :=
  exists test_name i,
    (i < Parametric.num_rounds cfg)%nat /\
    parametric_item_event cfg test_name i ev.

(** ** Steps, disks and logs

    [keeps R m]: whatever [m] returns or raises, the state it reaches is
    related by [R] to the one it started from.  [raises_within R m]: the
    same, for the runs of [m] that raise. *)

Definition keeps {S X} (R : S -> S -> Prop) (m : SE S X) : Prop :=
  forall s, R s (m s).2.


(** The same directories and the same files. *)
Definition same_disk `{E : Externals} (w w' : World) : Prop :=
  dirs w' = dirs w /\ files w' = files w.

Definition same_dirs `{E : Externals} (w w' : World) : Prop :=
  dirs w' = dirs w.

(** [w'] is [w] after steps that removed nothing and dumped only to
    paths at which nothing existed in [w]. *)
Definition fresh_dumps `{E : Externals} (w w' : World) : Prop :=
  exists evs,
    events w' = events w ++ evs /\
    dirs w ⊆ dirs w' /\
    dom (files w) ⊆ dom (files w') /\
    (forall p, EvDump p ∉ evs -> files w' !! p = files w !! p) /\
    (forall p, EvDump p ∈ evs -> ~ exists_on_disk w p).

(** The paths dumped to, and the estimator calls made, in log order. *)
Definition dumps (evs : list event) : list path :=
  flat_map (fun ev => match ev with EvDump p => [p] | _ => [] end) evs.

Definition estimates (evs : list event) : list call_info :=
  flat_map (fun ev => match ev with EvEstimate c => [c] | _ => [] end) evs.

(** The output files of a run, in the order the loops reach them. *)
Definition distance_outputs (cfg : Distance.Config)
    (items : list Distance.family) : list path :=
  flat_map (fun i => map (fun test => Distance.power_fp test i) items)
           (seq 0 (Distance.num_rounds cfg)).

(** The work items of the distance-based notebook, replicate by
    replicate. *)
Definition distance_work_items (cfg : Distance.Config)
    (items : list Distance.family) : list (nat * Distance.family) :=
  flat_map (fun i => map (pair i) items) (seq 0 (Distance.num_rounds cfg)).

Definition parametric_outputs (cfg : Parametric.Config) : list path :=
  flat_map (fun test_name =>
              map (Parametric.power_fp test_name)
                  (seq 0 (Parametric.num_rounds cfg)))
           Parametric.parametric.

(** ** Worked examples

    Library callables with fixed outcomes, to run the notebooks on small
    concrete worlds: every test returns p = 1/100, every closed-form curve
    is empty, and the estimator returns [num_runs] rows of zeros, one per
    count.  The random state is a counter of the draws made. *)

Module Demo.

Definition externals : Externals :=
  {| RNG := nat;
     np_random_seed := fun n => Z.to_nat n;
     pandas_loc := fun groups obs =>
       inr (filter (fun row => row.1 ∈ obs) groups);
     dm_filter := fun dm obs =>
       inr {| dm_ids := obs; dm_data := dm_data dm |};
     skbio_permanova := fun _ _ _ g => (inr (1 # 100), S g);
     skbio_mantel := fun _ _ _ g => (inr (1 # 100), S g);
     scipy_ttest_1samp := fun _ _ => inr (1 # 100);
     scipy_ttest_ind := fun _ _ => inr (1 # 100);
     scipy_f_oneway := fun _ => inr (1 # 100);
     scipy_pearsonr := fun _ => inr (1 # 100);
     trad_calc_ttest_1 := fun _ _ _ => inr [];
     trad_calc_ttest_ind := fun _ _ => inr [];
     trad_calc_anova := fun _ _ => inr [];
     trad_calc_pearson := fun _ _ => inr [];
     subsample_power := fun A c g =>
       (inr (replicate (pc_num_runs c) (map (fun _ => 0%Q) (pc_counts c))), S g)
  |}.

Definition world (ds : list path) (fs : list (path * pickled)) : @World externals :=
  @Build_World externals (list_to_set ds) (list_to_map fs) 0%nat [].

Definition distance_cfg : Distance.Config :=
  {| Distance.num_cpus := 1; Distance.overwrite := false;
     Distance.num_rounds := 1; Distance.depth := 99;
     Distance.alpha := 5 # 100 |}.

Definition parametric_cfg : Parametric.Config :=
  {| Parametric.num_rounds := 2; Parametric.overwrite := false;
     Parametric.counts := Np.arange 5 100 10; Parametric.alpha := 5 # 100;
     Parametric.num_iter := 100; Parametric.run_runs := 5 |}.

(** Forty observations [s0 .. s39]: the first twenty labelled 0, the rest
    labelled 1, at distance 1 from one another. *)
Definition forty_ids : list ident :=
  map (fun k : nat => "s" +:+ pretty k) (seq 0 40).

Definition forty_dm : DistanceMatrix :=
  {| dm_ids := forty_ids;
     dm_data := map (fun i : nat =>
                  map (fun j : nat => if decide (i = j) then 0%Q else 1%Q)
                      (seq 0 40)) (seq 0 40) |}.

Definition forty_groups : Series :=
  map (fun k : nat => ("s" +:+ pretty k, if decide (k < 20)%nat then 0 else 1))
      (seq 0 40).

(** Two groups of 50 observations each. *)
Definition two_groups_of_50 : list (list Q) :=
  [replicate 50 0%Q; replicate 50 1%Q].



(** As above, with a fourth observation labelled 2. *)
Definition four_obs_groups : Series := [("a", 0); ("b", 1); ("c", 1); ("d", 2)].

(** A disk with the simulations of replicate 0 of both distance-based
    families and nothing else. *)
Definition distance_world : @World externals :=
  world [Distance.sim_location]
    [(Distance.simulation_fp Distance.permanova 0,
      Simulation (Grouped forty_dm forty_groups));
     (Distance.simulation_fp Distance.mantel 0,
      Simulation (Paired forty_dm forty_dm))].

(** A disk with the simulations of replicates 0 and 1 of the five
    parametric families. *)
Definition parametric_world : @World externals :=
  world [Parametric.sim_location]
    (flat_map (fun test_name =>
       [(Parametric.sim_fp test_name 0, Simulation (Vectors two_groups_of_50));
        (Parametric.sim_fp test_name 1, Simulation (Vectors two_groups_of_50))])
       Parametric.parametric).


End Demo.

(** * Properties *)

(** ** numpy's [arange] *)

Example arange_5_100_10 :
  Np.arange 5 100 10 = [5; 15; 25; 35; 45; 55; 65; 75; 85; 95].
Proof. reflexivity. Qed.

Example arange_5_40_10 : Np.arange 5 40 10 = [5; 15; 25; 35].
Proof. reflexivity. Qed.

Example arange_5_35_10 : Np.arange 5 35 10 = [5; 15; 25].
Proof. reflexivity. Qed.

Example arange_stop_below_start : Np.arange 5 (-3) 10 = [].
Proof. reflexivity. Qed.

Example simulation_file_12 : simulation_file 12 = "simulation_12.p".
Proof. reflexivity. Qed.

Lemma arange_elem start stop step c :
  c ∈ Np.arange start stop step ->
  exists k : nat,
    (k < Np.arange_len start stop step)%nat /\ c = start + Z.of_nat k * step.
Proof.
  unfold Np.arange. case_decide; [|by intros ?%elem_of_nil].
  intros (k & -> & Hk)%list_elem_of_fmap.
  apply list_elem_of_In, in_seq in Hk. exists k. split; [lia | done].
Qed.

Lemma arange_lower start stop step c :
  c ∈ Np.arange start stop step -> start <= c.
Proof.
  intros Hc. pose proof Hc as (k & _ & ->)%arange_elem.
  unfold Np.arange in Hc. case_decide; [nia | by apply elem_of_nil in Hc].
Qed.

Lemma arange_upper start stop step c :
  c ∈ Np.arange start stop step -> c < stop.
Proof.
  intros Hc. pose proof Hc as (k & Hk & ->)%arange_elem.
  unfold Np.arange in Hc. case_decide as Hstep; [|by apply elem_of_nil in Hc].
  unfold Np.arange_len in Hk.
  set (q := (stop - start + step - 1) / step) in Hk.
  assert (Z.of_nat k + 1 <= q) as Hq by lia.
  assert (step * q <= stop - start + step - 1) as Hmul
    by (apply Z.mul_div_le; lia).
  nia.
Qed.

Lemma affine_seq_sorted start step a n :
  0 < step ->
  StronglySorted Z.lt (map (fun k : nat => start + Z.of_nat k * step) (seq a n)).
Proof.
  intros Hstep. revert a. induction n as [|n IH]; intros a; simpl.
  - constructor.
  - constructor; [apply IH|].
    apply Forall_forall. intros c (k & -> & Hk)%list_elem_of_fmap.
    apply list_elem_of_In, in_seq in Hk. nia.
Qed.

Lemma arange_sorted start stop step :
  StronglySorted Z.lt (Np.arange start stop step).
Proof.
  unfold Np.arange. case_decide; [by apply affine_seq_sorted | constructor].
Qed.

(** ** The monad *)

Section Monad.
Context {S : Type}.

Lemma bind_ok_inv {X Y} (m : SE S X) (k : X -> SE S Y) s y s' :
  (m ≫= k) s = (inr y, s') ->
  exists x s1, m s = (inr x, s1) /\ k x s1 = (inr y, s').
Proof.
  unfold mbind, SE_bind. destruct (m s) as [[e|x] s1]; [done|]. eauto.
Qed.

Lemma bind_ok {X Y} (m : SE S X) (k : X -> SE S Y) s x s1 :
  m s = (inr x, s1) -> (m ≫= k) s = k x s1.
Proof. unfold mbind, SE_bind. by intros ->. Qed.

Lemma bind_raise {X Y} (m : SE S X) (k : X -> SE S Y) s e s1 :
  m s = (inl e, s1) -> (m ≫= k) s = (inl e, s1).
Proof. unfold mbind, SE_bind. by intros ->. Qed.

(** A run is its outcome together with the state it reached. *)
Lemma run_returns {X} (m : SE S X) s r :
  (m s).1 = r -> m s = (r, (m s).2).
Proof. destruct (m s). simpl. by intros ->. Qed.

Lemma or_raise_ok_inv {X} (o : option X) e s x s' :
  or_raise (S:=S) o e s = (inr x, s') -> o = Some x /\ s' = s.
Proof.
  destruct o; cbv; intros [= <- <-] || intros [=]; done.
Qed.

Lemma for_each_app {A} (l1 l2 : list A) (body : A -> SE S unit) s :
  for_each (l1 ++ l2) body s =
  (for_each l1 body ;; for_each l2 body) s.
Proof.
  revert s. induction l1 as [|x l1 IH]; intros s; simpl.
  - done.
  - unfold mbind, SE_bind in *. destruct (body x s) as [[e|[]] s1]; [done|].
    apply IH.
Qed.


(** A loop whose bodies all return keeps an invariant they keep. *)
Lemma for_each_invariant {A} (I : S -> Prop) (l : list A) (body : A -> SE S unit) :
  (forall x s, x ∈ l -> I s -> exists s', body x s = (inr tt, s') /\ I s') ->
  forall s, I s -> exists s', for_each l body s = (inr tt, s') /\ I s'.
Proof.
  induction l as [|x l IH]; intros Hbody s Hs; simpl.
  - by exists s.
  - destruct (Hbody x s) as (s1 & Hx & Hs1); [left | done |].
    rewrite (bind_ok _ _ _ _ _ Hx).
    apply IH; [|done]. intros y s0 Hy. apply Hbody. by right.
Qed.

(** A loop of steps in a preorder is a step in it. *)
Lemma for_each_related {A} (R : S -> S -> Prop) (l : list A)
    (body : A -> SE S unit) :
  (forall s, R s s) ->
  (forall s1 s2 s3, R s1 s2 -> R s2 s3 -> R s1 s3) ->
  (forall x s, x ∈ l -> R s (body x s).2) ->
  forall s, R s (for_each l body s).2.
Proof.
  intros Hrefl Htrans. induction l as [|x l IH]; intros HR s; simpl.
  - apply Hrefl.
  - pose proof (HR x s (list_elem_of_here _ _)) as Hx.
    unfold mbind, SE_bind. destruct (body x s) as [[e|[]] s1]; [done|].
    eapply Htrans; [exact Hx|].
    apply IH. intros y s0 Hy. apply HR. by right.
Qed.

(** What every body establishes on returning, and every later step keeps,
    holds for all of the list once the loop returns. *)
Lemma for_each_establishes {A} (Q : A -> S -> Prop) (R : S -> S -> Prop)
    (l : list A) (body : A -> SE S unit) :
  (forall s, R s s) ->
  (forall s1 s2 s3, R s1 s2 -> R s2 s3 -> R s1 s3) ->
  (forall x s s', Q x s -> R s s' -> Q x s') ->
  (forall x s, x ∈ l -> R s (body x s).2) ->
  (forall x s s', x ∈ l -> body x s = (inr tt, s') -> Q x s') ->
  forall s s', for_each l body s = (inr tt, s') -> forall x, x ∈ l -> Q x s'.
Proof.
  intros Hrefl Htrans Hstable.
  induction l as [|y l IH]; intros HR Hest s s' Hrun x Hx.
  - by apply elem_of_nil in Hx.
  - simpl in Hrun. apply bind_ok_inv in Hrun as ([] & s1 & Hy & Hrest).
    assert (forall z s0, z ∈ l -> R s0 (body z s0).2) as HR'
      by (intros z s0 Hz; apply HR; by right).
    apply elem_of_cons in Hx as [->|Hx].
    + apply (Hstable y s1); [by apply (Hest y s); [left|]|].
      pose proof (for_each_related R l body Hrefl Htrans HR' s1) as Hstep.
      by rewrite Hrest in Hstep.
    + apply (IH HR') with (s := s1); [|done..].
      intros z s0 s0' Hz. apply Hest. by right.
Qed.

End Monad.

(** ** Steps of a notebook extend the world *)

Section ExtendsFacts.
Context `{E : Externals}.
Implicit Types (P : event -> Prop) (w : World).

Lemma extends_refl P w : extends P w w.
Proof.
  exists []. rewrite app_nil_r. repeat split; [constructor | done..].
Qed.

Lemma extends_trans P w1 w2 w3 :
  extends P w1 w2 -> extends P w2 w3 -> extends P w1 w3.
Proof.
  intros (evs1 & Hev1 & HP1 & Hd1 & Hf1 & Hk1) (evs2 & Hev2 & HP2 & Hd2 & Hf2 & Hk2).
  exists (evs1 ++ evs2). repeat split.
  - by rewrite Hev2, Hev1, app_assoc.
  - by apply Forall_app.
  - set_solver.
  - set_solver.
  - intros p Hp. rewrite Hk2, Hk1; [done|..]; set_solver.
Qed.

Lemma extends_mono P Q w w' :
  (forall ev, P ev -> Q ev) -> extends P w w' -> extends Q w w'.
Proof.
  intros HPQ (evs & Hev & HP & Hrest). exists evs. split; [done|].
  split; [|done]. eapply Forall_impl; eauto.
Qed.

Lemma extends_exists P w w' p :
  extends P w w' -> exists_on_disk w p -> exists_on_disk w' p.
Proof.
  intros (evs & _ & _ & Hd & Hf & _) [Hp|Hp]; [left | right]; set_solver.
Qed.

Lemma sound_ret {X} P (x : X) : sound P (mret x).
Proof. intros w. apply extends_refl. Qed.

Lemma sound_raise {X} P e : sound (X:=X) P (raise e).
Proof. intros w. apply extends_refl. Qed.

Lemma sound_pure_call {X} P (r : exn + X) : sound P (pure_call r).
Proof. intros w. apply extends_refl. Qed.

Lemma sound_or_raise {X} P (o : option X) e : sound P (or_raise o e).
Proof. destruct o; [apply sound_ret | apply sound_raise]. Qed.

Lemma sound_bind {X Y} P (m : M X) (k : X -> M Y) :
  sound P m -> (forall x, sound P (k x)) -> sound P (m ≫= k).
Proof.
  intros Hm Hk w. specialize (Hm w). unfold mbind, SE_bind.
  destruct (m w) as [[e|x] w1]; [done|].
  eapply extends_trans; [exact Hm | apply Hk].
Qed.

Lemma sound_for_each {A} P (l : list A) (body : A -> M unit) :
  (forall x, x ∈ l -> sound P (body x)) -> sound P (for_each l body).
Proof.
  intros Hbody. unfold sound. apply (for_each_related (extends P)).
  - apply extends_refl.
  - apply extends_trans.
  - intros x w Hx. by apply Hbody.
Qed.

Lemma sound_mono {X} P Q (m : M X) :
  (forall ev, P ev -> Q ev) -> sound P m -> sound Q m.
Proof. intros HPQ Hm w. eapply extends_mono; eauto. Qed.

Lemma sound_log P ev : P ev -> (forall p, ev <> EvDump p) -> sound P (log ev).
Proof.
  intros Hev Hnot w. exists [ev]. simpl. repeat split; [|done..].
  by constructor.
Qed.

Lemma sound_print P line : P (EvPrint line) -> sound P (print line).
Proof. intros HP. by apply sound_log. Qed.

Lemma sound_with_rng {X} P (r : SE RNG X) : sound P (with_rng r).
Proof.
  intros w. unfold with_rng. destruct (r (rng w)) as [x g]. simpl.
  exists []. rewrite app_nil_r. repeat split; [constructor | done..].
Qed.

Lemma sound_np_seed P n : sound P (np_seed n).
Proof.
  intros w. exists []. simpl. rewrite app_nil_r.
  repeat split; [constructor | done..].
Qed.

Lemma sound_os_path_exists P p : sound P (os_path_exists p).
Proof. intros w. apply extends_refl. Qed.

Lemma sound_os_makedirs P p : sound P (os_makedirs p).
Proof.
  intros w. unfold os_makedirs. case_bool_decide; [apply extends_refl|].
  exists []. simpl. rewrite app_nil_r.
  repeat split; [constructor | set_solver | done..].
Qed.

Lemma sound_unpickle P p : sound P (unpickle p).
Proof.
  intros w. unfold unpickle.
  destruct (files w !! p) as [[]|]; apply extends_refl.
Qed.

Lemma sound_pickle_load P p : P (EvLoad p) -> sound P (pickle_load p).
Proof.
  intros HP. apply sound_bind; [by apply sound_log | intros _; apply sound_unpickle].
Qed.

Lemma sound_pickle_dump P s p : P (EvDump p) -> sound P (pickle_dump s p).
Proof.
  intros HP w. unfold pickle_dump.
  repeat case_bool_decide; try apply extends_refl.
  exists [EvDump p]. simpl. repeat split.
  - by constructor.
  - done.
  - rewrite dom_insert_L. set_solver.
  - intros q Hq. apply lookup_insert_ne. intros ->. apply Hq. by left.
Qed.

Lemma sound_call_subsample_power {A} P (c : power_call RNG A) :
  P (EvEstimate (info_of_call c)) -> sound P (call_subsample_power c).
Proof.
  intros HP. apply sound_bind; [by apply sound_log | intros _; apply sound_with_rng].
Qed.

(** Only the logged dumps change what a file holds. *)
Lemma extends_readable P w w' p :
  extends P w w' -> (forall q, P (EvDump q) -> q <> p) ->
  readable w p -> readable w' p.
Proof.
  intros (evs & _ & HP & _ & _ & Hk) Hne (obj & Hobj & Hc).
  exists obj. split; [|done]. rewrite Hk; [done|].
  intros Hin. rewrite Forall_forall in HP. by apply (Hne p (HP _ Hin)).
Qed.

Lemma extends_readable_back P w w' p :
  extends P w w' -> (forall q, P (EvDump q) -> q <> p) ->
  readable w' p -> readable w p.
Proof.
  intros (evs & _ & HP & _ & _ & Hk) Hne (obj & Hobj & Hc).
  exists obj. split; [|done]. rewrite <- Hk; [done|].
  intros Hin. rewrite Forall_forall in HP. by apply (Hne p (HP _ Hin)).
Qed.

End ExtendsFacts.

(** ** The events of the two notebooks *)

Section NotebookEvents.
Context `{E : Externals}.

Lemma sound_bind_ret {X Y} P (x : X) (k : X -> M Y) :
  sound P (k x) -> sound P (mret x ≫= k).
Proof. intros Hk w. exact (Hk w). Qed.

Lemma sound_get_samples P simulation : sound P (get_samples simulation).
Proof. destruct simulation; [apply sound_ret | apply sound_raise..]. Qed.

Lemma sound_calculate_permanova_power cfg i simulation :
  sound (distance_item_event cfg i Distance.permanova)
    (Distance.calculate_permanova_power simulation (Distance.alpha cfg)
       (Distance.depth cfg) (Distance.power_fp Distance.permanova i)).
Proof.
  unfold Distance.calculate_permanova_power.
  apply sound_bind; [apply sound_get_samples|].
  intros [dm groups| |]; try apply sound_raise.
  destruct (Distance.permanova_counts (Distance.permanova_samples groups))
    as [counts|] eqn:Hcounts; [|apply sound_bind; [apply sound_raise | done]].
  apply sound_bind_ret.
  apply sound_bind; [apply sound_call_subsample_power; simpl; eauto|].
  intros power. apply sound_bind; [apply sound_with_rng|].
  intros p. apply sound_bind; [apply sound_or_raise|].
  intros n. by apply sound_pickle_dump.
Qed.

Lemma sound_calculate_mantel_power cfg i simulation :
  sound (distance_item_event cfg i Distance.mantel)
    (Distance.calculate_mantel_power simulation
       (Distance.power_fp Distance.mantel i) (Distance.alpha cfg)
       (Distance.depth cfg)).
Proof.
  unfold Distance.calculate_mantel_power.
  apply sound_bind; [apply sound_get_samples|].
  intros [|x y|]; try apply sound_raise.
  destruct (Distance.mantel_counts (Distance.mantel_samples x))
    as [counts|] eqn:Hcounts; [|apply sound_bind; [apply sound_raise | done]].
  apply sound_bind_ret.
  apply sound_bind; [apply sound_call_subsample_power; simpl; eauto|].
  intros power. apply sound_bind; [apply sound_with_rng|].
  intros p. apply sound_bind; [apply sound_or_raise|].
  intros n. by apply sound_pickle_dump.
Qed.

Lemma sound_distance_work_item cfg i test :
  sound (distance_item_event cfg i test) (Distance.work_item cfg i test).
Proof.
  unfold Distance.work_item.
  apply sound_bind; [by apply sound_pickle_load|]. intros simulation.
  apply sound_bind; [apply sound_os_path_exists|]. intros e.
  destruct (Distance.overwrite cfg || negb e); [|apply sound_ret].
  apply sound_bind; [by apply sound_print|]. intros _.
  unfold Distance.Pool_apply, Distance.sim_func. destruct test.
  - apply sound_calculate_mantel_power.
  - apply sound_calculate_permanova_power.
Qed.

Lemma sound_make_dirs P test : sound P (Distance.make_dirs test).
Proof.
  unfold Distance.make_dirs.
  apply sound_bind; [apply sound_os_path_exists|]. intros e.
  apply sound_bind; [destruct e; [apply sound_ret | apply sound_os_makedirs]|].
  intros _. apply sound_bind; [apply sound_os_path_exists|]. intros e'.
  destruct e'; [apply sound_ret | apply sound_os_makedirs].
Qed.

Lemma sound_distance_power_loop cfg items :
  sound (distance_event cfg items) (Distance.power_loop cfg items).
Proof.
  unfold Distance.power_loop.
  apply sound_bind.
  { unfold Distance.Pool. case_decide; [apply sound_raise | apply sound_ret]. }
  intros _. apply sound_for_each. intros i Hi.
  apply list_elem_of_In, in_seq in Hi.
  apply sound_for_each. intros test Htest.
  eapply sound_mono; [|apply sound_distance_work_item].
  intros ev Hev. exists i, test. split; [lia | done].
Qed.

Lemma sound_distance_main cfg items :
  sound (distance_event cfg items) (Distance.main cfg items).
Proof.
  unfold Distance.main.
  apply sound_bind; [apply sound_np_seed|]. intros _.
  apply sound_bind; [apply sound_os_path_exists|]. intros e.
  destruct e; cbn [negb]; [|apply sound_raise].
  apply sound_bind; [|intros _; apply sound_distance_power_loop].
  apply sound_for_each. intros test _. apply sound_make_dirs.
Qed.

Lemma sound_parametric_work_item cfg test_name i :
  sound (parametric_item_event cfg test_name i)
    (Parametric.work_item cfg test_name i).
Proof.
  unfold Parametric.work_item.
  apply sound_bind; [apply sound_os_path_exists|]. intros e.
  destruct (e && negb (Parametric.overwrite cfg)); [apply sound_ret|].
  apply sound_bind; [by apply sound_pickle_load|]. intros simulation.
  apply sound_bind; [apply sound_get_samples|].
  intros [| |samples]; try apply sound_raise.
  apply sound_bind; [apply sound_pure_call|]. intros traditional.
  apply sound_bind; [apply sound_call_subsample_power; simpl; eauto|].
  intros emperical. apply sound_bind; [apply sound_or_raise|].
  intros n. apply sound_bind; [apply sound_pure_call|].
  intros p. by apply sound_pickle_dump.
Qed.

Lemma sound_parametric_family_loop cfg test_name :
  sound (parametric_event cfg) (Parametric.family_loop cfg test_name).
Proof.
  unfold Parametric.family_loop.
  apply sound_bind; [apply sound_os_path_exists|]. intros e.
  apply sound_bind; [destruct e; [apply sound_ret | apply sound_os_makedirs]|].
  intros _. apply sound_for_each. intros i Hi.
  apply list_elem_of_In, in_seq in Hi.
  eapply sound_mono; [|apply sound_parametric_work_item].
  intros ev Hev. exists test_name, i. split; [lia | done].
Qed.

Lemma sound_parametric_main cfg :
  sound (parametric_event cfg) (Parametric.main cfg).
Proof.
  unfold Parametric.main.
  apply sound_bind; [apply sound_os_path_exists|]. intros e.
  destruct e; cbn [negb]; [|apply sound_raise].
  apply sound_for_each. intros test_name _.
  apply sound_parametric_family_loop.
Qed.

End NotebookEvents.

(** ** The keywords of the estimator calls *)

Section Calls.
Context `{E : Externals}.

Lemma new_events_extends P (w w' : World) :
  extends P w w' -> Forall P (new_events w w').
Proof.
  intros (evs & Hev & HP & _). unfold new_events.
  by rewrite Hev, drop_app_length.
Qed.

Lemma distance_main_events cfg items (w : World) ev :
  ev ∈ new_events w (Distance.main cfg items w).2 ->
  distance_event cfg items ev.
Proof.
  pose proof (new_events_extends _ _ _ (sound_distance_main cfg items w)) as H.
  rewrite Forall_forall in H. apply H.
Qed.

Lemma distance_work_item_events cfg i test (w : World) ev :
  ev ∈ new_events w (Distance.work_item cfg i test w).2 ->
  distance_item_event cfg i test ev.
Proof.
  pose proof (new_events_extends _ _ _ (sound_distance_work_item cfg i test w)) as H.
  rewrite Forall_forall in H. apply H.
Qed.

Lemma parametric_main_events cfg (w : World) ev :
  ev ∈ new_events w (Parametric.main cfg w).2 ->
  parametric_event cfg ev.
Proof.
  pose proof (new_events_extends _ _ _ (sound_parametric_main cfg w)) as H.
  rewrite Forall_forall in H. apply H.
Qed.

Lemma parametric_work_item_events cfg test_name i (w : World) ev :
  ev ∈ new_events w (Parametric.work_item cfg test_name i w).2 ->
  parametric_item_event cfg test_name i ev.
Proof.
  pose proof (new_events_extends _ _ _
                (sound_parametric_work_item cfg test_name i w)) as H.
  rewrite Forall_forall in H. apply H.
Qed.

Lemma min_len_le {A} (samples : list (list A)) m s :
  min_len samples = Some m -> s ∈ samples -> m <= len s.
Proof.
  destruct samples as [|s0 rest]; [done|]. simpl. intros [= <-].
  intros [->|Hs]%elem_of_cons.
  - induction rest as [|t rest IH]; simpl; lia.
  - induction rest as [|t rest IH]; [by apply elem_of_nil in Hs|].
    simpl. apply elem_of_cons in Hs as [->|Hs]; [lia|].
    specialize (IH Hs). lia.
Qed.

Lemma arange_5_schedule stop :
  StronglySorted Z.lt (Np.arange 5 stop 10) /\
  Forall (fun count => 0 < count) (Np.arange 5 stop 10) /\
  Forall (fun count => count <= stop - 1) (Np.arange 5 stop 10).
Proof.
  split; [apply arange_sorted|].
  split; apply Forall_forall; intros c Hc.
  - apply arange_lower in Hc. lia.
  - apply arange_upper in Hc. lia.
Qed.

(** The schedule of a call made by the distance-based notebook. *)
Lemma distance_call_counts cfg i test c :
  distance_item_event cfg i test (EvEstimate c) ->
  StronglySorted Z.lt (ci_counts c) /\
  Forall (fun count => 0 < count) (ci_counts c) /\
  forall size, size ∈ ci_pool c ->
    Forall (fun count => count <= Z.of_nat size - 11) (ci_counts c).
Proof.
  destruct test; simpl.
  - intros (x & y & counts & Hcounts & ->). simpl.
    unfold Distance.mantel_counts, Distance.mantel_samples, len_first in Hcounts.
    simpl in Hcounts. injection Hcounts as <-.
    destruct (arange_5_schedule (len (dm_ids x) - 10)) as (Hs & Hp & Hu).
    split; [done|]. split; [done|].
    intros size ->%list_elem_of_singleton.
    eapply Forall_impl; [exact Hu|]. unfold len. simpl. lia.
  - intros (dm & groups & counts & Hcounts & ->).
    cbn [ci_counts ci_pool info_of_call pc_counts pc_samples
         Distance.permanova_call].
    unfold Distance.permanova_counts in Hcounts.
    destruct (min_len (Distance.permanova_samples groups)) as [m|] eqn:Hm;
      [|done].
    simpl in Hcounts. injection Hcounts as <-.
    destruct (arange_5_schedule (m - 10)) as (Hs & Hp & Hu).
    split; [done|]. split; [done|].
    intros size (s & -> & Hs')%list_elem_of_fmap.
    pose proof (min_len_le _ _ _ Hm Hs') as Hle. unfold len in Hle.
    eapply Forall_impl; [exact Hu|]. simpl. lia.
Qed.

End Calls.

(** ** C1: the counts schedules *)

(** C1, as stated, fails for the parametric families: the schedule handed
    to the estimator is [5, 15, ..., 95] whatever the loaded samples are, so
    with two groups of 50 observations the count 95 exceeds
    [min group size - 1 = 49]. *)
Lemma C1_parametric_count_exceeds_pool :
  let w := Demo.parametric_world in
  let w' := (Parametric.work_item (E:=Demo.externals) Parametric.notebook_config
               Parametric.ttest_ind 0 w).2 in
  exists c,
    EvEstimate c ∈ new_events w w' /\
    ci_pool c = [50%nat; 50%nat] /\
    95 ∈ ci_counts c /\
    ~ Forall (fun count => count <= 50 - 1) (ci_counts c).
Proof.
  eexists. split; [|split; [|split]].
  - vm_compute. apply list_elem_of_further, list_elem_of_here.
  - reflexivity.
  - vm_compute. repeat constructor.
  - intros H. rewrite Forall_forall in H.
    assert (95 <= 50 - 1) as Habs; [|lia].
    apply H. vm_compute. repeat constructor.
Qed.

(** C1 (amended): every schedule the distance-based notebook hands to the
    estimator (PERMANOVA: [arange(5, min group size - 10, 10)]; Mantel:
    [arange(5, number of ids - 10, 10)]) is strictly increasing, positive and
    at most [group size - 11] for every group of the pool, hence never above
    [min group size - 1]; every schedule the parametric notebook hands over
    is the configured [counts], which the notebook sets to
    [5, 15, ..., 95], strictly increasing and positive, whatever the sizes
    of the loaded samples. *)
Theorem C1_counts_schedules `{E : Externals} :
  (forall cfg items (w : World) c,
     EvEstimate c ∈ new_events w (Distance.main cfg items w).2 ->
     StronglySorted Z.lt (ci_counts c) /\
     Forall (fun count => 0 < count) (ci_counts c) /\
     forall size, size ∈ ci_pool c ->
       Forall (fun count => count <= Z.of_nat size - 11) (ci_counts c)) /\
  (forall cfg (w : World) c,
     EvEstimate c ∈ new_events w (Parametric.main cfg w).2 ->
     ci_counts c = Parametric.counts cfg) /\
  Parametric.counts Parametric.notebook_config =
    [5; 15; 25; 35; 45; 55; 65; 75; 85; 95] /\
  StronglySorted Z.lt (Parametric.counts Parametric.notebook_config) /\
  Forall (fun count => 0 < count) (Parametric.counts Parametric.notebook_config).
Proof.
  split; [|split; [|split; [|split]]].
  - intros cfg items w c (i & test & _ & _ & Hev)%distance_main_events.
    by eapply distance_call_counts.
  - intros cfg w c (test_name & i & _ & Hev)%parametric_main_events.
    destruct Hev as (samples & ->). by destruct test_name.
  - reflexivity.
  - apply arange_sorted.
  - apply (arange_5_schedule 100).
Qed.

Lemma C1_counts_schedules_witness :
  let w := Demo.distance_world in
  let items := [Distance.mantel; Distance.permanova] in
  let c := {| ci_pool := [20%nat; 20%nat]; ci_counts := [5];
              ci_num_iter := 100; ci_num_runs := 5;
              ci_alpha := Some (5 # 100); ci_bootstrap := Some false;
              ci_draw_mode := None |} in
  EvEstimate c ∈
    new_events w (Distance.main (E:=Demo.externals) Demo.distance_cfg items w).2 /\
  StronglySorted Z.lt (ci_counts c) /\
  Forall (fun count => 0 < count) (ci_counts c) /\
  forall size, size ∈ ci_pool c ->
    Forall (fun count => count <= Z.of_nat size - 11) (ci_counts c).
Proof.
  intros w items c.
  assert (EvEstimate c ∈
    new_events w (Distance.main (E:=Demo.externals) Demo.distance_cfg items w).2)
    as Hin.
  { vm_compute. do 6 apply list_elem_of_further. apply list_elem_of_here. }
  split; [exact Hin|].
  exact (proj1 (C1_counts_schedules (E:=Demo.externals))
           Demo.distance_cfg items w c Hin).
Defined.

(** ** C2: sampling without replacement *)



(** ** C3: draw modes *)

(** The [draw_mode] keyword at each call site. *)
Example draw_modes_of_the_calls `{E : Externals} dm groups x y counts a d cfg samples :
  pc_draw_mode (Distance.mantel_call x y counts a d) = Some Matched /\
  pc_draw_mode (Distance.permanova_call dm groups counts a d) = None /\
  map (fun test_name =>
         pc_draw_mode (Parametric.empr_power
                         (Parametric.distributions cfg test_name) samples))
      Parametric.parametric = [None; None; None; None; Some Matched].
Proof. done. Qed.



(** ** C6: iterations and runs *)

(** C6 fails on the parametric notebook: the configuration cell sets
    [num_iter = 100] and [run_runs = 5], but the calls for the t tests and
    the ANOVAs are made with [num_iter=1000, num_runs=3], whatever the
    configuration says, and only the correlation call uses 100 and 5; so
    the calls of one run do not share one value. *)
Theorem C6_parametric_calls_ignore_configuration `{E : Externals} cfg samples :
  let call test_name :=
    Parametric.empr_power (Parametric.distributions cfg test_name) samples in
  map (fun test_name => (pc_num_iter (call test_name), pc_num_runs (call test_name)))
      Parametric.parametric =
    [(1000, 3); (1000, 3); (1000, 3); (1000, 3); (100, 5)]%nat /\
  (Parametric.num_iter Parametric.notebook_config,
   Parametric.run_runs Parametric.notebook_config) = (100, 5)%nat.
Proof. done. Qed.

(** ** C9: the two PERMANOVA groups *)

Lemma permanova_samples_eq groups :
  Distance.permanova_samples groups =
    [map fst (filter (fun row => row.2 = 0) groups);
     map fst (filter (fun row => row.2 = 1) groups)].
Proof. reflexivity. Qed.


Lemma unique_index_label (groups : Series) id l1 l2 :
  NoDup groups.*1 -> (id, l1) ∈ groups -> (id, l2) ∈ groups -> l1 = l2.
Proof.
  induction groups as [|[k v] groups IH]; simpl.
  - by intros _ ?%elem_of_nil.
  - intros [Hk Hnd]%NoDup_cons [[= -> ->]|H1]%elem_of_cons [[= ->]|H2]%elem_of_cons.
    + done.
    + exfalso. apply Hk. apply list_elem_of_fmap.
      eexists; split; [|eassumption]; done.
    + exfalso. apply Hk. apply list_elem_of_fmap.
      eexists; split; [|eassumption]; done.
    + by apply IH.
Qed.



(** ** What the primitives return *)

Section Primitives.
Context `{E : Externals}.
Implicit Types (w : World) (p : path).

Lemma os_path_exists_true w p :
  exists_on_disk w p -> os_path_exists p w = (inr true, w).
Proof.
  intros Hp. unfold os_path_exists. by rewrite bool_decide_eq_true_2.
Qed.


Lemma os_path_exists_inv w p b w' :
  os_path_exists p w = (inr b, w') ->
  w' = w /\ (b = true <-> exists_on_disk w p).
Proof.
  unfold os_path_exists. intros [= <- <-]. split; [done|].
  apply bool_decide_eq_true.
Qed.

Lemma os_makedirs_ok_inv w p w' :
  os_makedirs p w = (inr tt, w') -> p <> [] -> exists_on_disk w' p.
Proof.
  unfold os_makedirs. case_bool_decide; [done|]. intros [= <-] Hp. left. simpl.
  apply elem_of_union_r, elem_of_list_to_set.
  clear -Hp. induction p as [|c p IH]; [done|]. simpl.
  destruct p as [|c' p]; [by left|]. right.
  apply list_elem_of_fmap. exists (c' :: p). split; [done|]. by apply IH.
Qed.

Lemma with_rng_ok_inv {X} (r : SE RNG X) w x w' :
  with_rng r w = (inr x, w') ->
  exists g, r (rng w) = (inr x, g) /\
    w' = {| dirs := dirs w; files := files w; rng := g; events := events w |}.
Proof.
  unfold with_rng. destruct (r (rng w)) as [y g]. intros [= -> <-]. eauto.
Qed.

Lemma call_subsample_power_ok_inv {A} (c : power_call RNG A) w power w' :
  call_subsample_power c w = (inr power, w') ->
  exists g, subsample_power A c (rng w) = (inr power, g) /\
    w' = {| dirs := dirs w; files := files w; rng := g;
            events := events w ++ [EvEstimate (info_of_call c)] |}.
Proof.
  unfold call_subsample_power.
  intros ([] & w1 & [= <-] & (g & Hg & ->)%with_rng_ok_inv)%bind_ok_inv.
  eauto.
Qed.

Lemma pickle_dump_ok_inv s p w w' :
  pickle_dump s p w = (inr tt, w') ->
  w' = {| dirs := dirs w; files := <[p := Summary s]> (files w); rng := rng w;
          events := events w ++ [EvDump p] |}.
Proof.
  unfold pickle_dump. repeat case_bool_decide; by intros [= <-].
Qed.

Lemma pickle_load_readable w p obj w' :
  pickle_load p w = (inr obj, w') ->
  readable w p /\ files w !! p = Some obj /\ w' = (log (EvLoad p) w).2.
Proof.
  unfold pickle_load.
  intros ([] & w1 & [= <-] & Hload)%bind_ok_inv.
  unfold unpickle in Hload. simpl in Hload.
  destruct (files w !! p) as [[]|] eqn:Hp; try done;
    injection Hload as <- <-; (split; [eexists; split; [done|done] | done]).
Qed.

Lemma pickle_load_ok w p :
  readable w p ->
  exists obj, pickle_load p w = (inr obj, (log (EvLoad p) w).2).
Proof.
  intros (obj & Hobj & Hc). exists obj. unfold pickle_load.
  rewrite (bind_ok _ _ w tt (log (EvLoad p) w).2); [|done].
  unfold unpickle. simpl. rewrite Hobj. by destruct obj.
Qed.

Lemma pickle_load_missing w p :
  files w !! p = None ->
  pickle_load p w = (inl (FileNotFoundError p), (log (EvLoad p) w).2).
Proof.
  intros Hp. unfold pickle_load.
  rewrite (bind_ok _ _ w tt (log (EvLoad p) w).2); [|done].
  unfold unpickle. simpl. by rewrite Hp.
Qed.

Lemma pickle_load_world w p : (pickle_load p w).2 = (log (EvLoad p) w).2.
Proof.
  unfold pickle_load, mbind, SE_bind, unpickle. simpl.
  by destruct (files w !! p) as [[]|].
Qed.

Lemma get_samples_ok_inv simulation w s w' :
  get_samples simulation w = (inr s, w') ->
  simulation = Simulation s /\ w' = w.
Proof. destruct simulation; cbv; intros [=]; by subst. Qed.

End Primitives.

(** ** What the wrappers persist *)

Section Wrappers.
Context `{E : Externals}.
Implicit Types (w : World).

Lemma calculate_permanova_power_ok simulation a d fp w w' :
  Distance.calculate_permanova_power simulation a d fp w = (inr tt, w') ->
  exists dm groups counts power g1 p g2,
    simulation = Simulation (Grouped dm groups) /\
    Distance.permanova_counts (Distance.permanova_samples groups) = Some counts /\
    subsample_power ident (Distance.permanova_call dm groups counts a d) (rng w)
      = (inr power, g1) /\
    Distance.permanova_test dm groups d (Distance.permanova_samples groups) g1
      = (inr p, g2) /\
    files w' !! fp = Some (Summary
      {| PowerSummary.emperical := power;
         PowerSummary.traditional := None;
         PowerSummary.original_p := p;
         PowerSummary.num_obs := len (filter (fun row => row.2 = 0) groups);
         PowerSummary.counts := counts;
         PowerSummary.alpha := a;
         PowerSummary.depth := None |}).
Proof.
  unfold Distance.calculate_permanova_power.
  intros (s & w0 & [-> ->]%get_samples_ok_inv & Hrest)%bind_ok_inv.
  destruct s as [dm groups| |]; try done.
  apply bind_ok_inv in Hrest as (counts & w0 & [Hcounts ->]%or_raise_ok_inv & Hrest).
  apply bind_ok_inv in Hrest
    as (power & w1 & (g1 & Hpower & ->)%call_subsample_power_ok_inv & Hrest).
  apply bind_ok_inv in Hrest as (p & w2 & (g2 & Hp & ->)%with_rng_ok_inv & Hrest).
  apply bind_ok_inv in Hrest as (n & w3 & [Hn ->]%or_raise_ok_inv & Hrest).
  apply pickle_dump_ok_inv in Hrest as ->.
  exists dm, groups, counts, power, g1, p, g2.
  repeat (split; [done|]). simpl. rewrite lookup_insert_eq.
  injection Hn as <-. unfold len. by rewrite length_map.
Qed.

Lemma calculate_mantel_power_ok simulation fp a d w w' :
  Distance.calculate_mantel_power simulation fp a d w = (inr tt, w') ->
  exists x y counts power g1 p g2,
    simulation = Simulation (Paired x y) /\
    Distance.mantel_counts (Distance.mantel_samples x) = Some counts /\
    subsample_power ident (Distance.mantel_call x y counts a d) (rng w)
      = (inr power, g1) /\
    Distance.mantel_test x y d (Distance.mantel_samples x) g1 = (inr p, g2) /\
    files w' !! fp = Some (Summary
      {| PowerSummary.emperical := power;
         PowerSummary.traditional := None;
         PowerSummary.original_p := p;
         PowerSummary.num_obs := len (dm_ids x);
         PowerSummary.counts := counts;
         PowerSummary.alpha := a;
         PowerSummary.depth := Some d |}).
Proof.
  unfold Distance.calculate_mantel_power.
  intros (s & w0 & [-> ->]%get_samples_ok_inv & Hrest)%bind_ok_inv.
  destruct s as [|x y|]; try done.
  apply bind_ok_inv in Hrest as (counts & w0 & [Hcounts ->]%or_raise_ok_inv & Hrest).
  apply bind_ok_inv in Hrest
    as (power & w1 & (g1 & Hpower & ->)%call_subsample_power_ok_inv & Hrest).
  apply bind_ok_inv in Hrest as (p & w2 & (g2 & Hp & ->)%with_rng_ok_inv & Hrest).
  apply bind_ok_inv in Hrest as (n & w3 & [Hn ->]%or_raise_ok_inv & Hrest).
  apply pickle_dump_ok_inv in Hrest as ->.
  exists x, y, counts, power, g1, p, g2.
  repeat (split; [done|]). simpl. rewrite lookup_insert_eq.
  by injection Hn as <-.
Qed.

Lemma parametric_work_item_ok cfg test_name i w w' :
  Parametric.work_item cfg test_name i w = (inr tt, w') ->
  Parametric.overwrite cfg = true \/
    ~ exists_on_disk w (Parametric.power_fp test_name i) ->
  exists samples traditional emperical g1 n p,
    files w !! Parametric.sim_fp test_name i = Some (Simulation (Vectors samples)) /\
    Parametric.trad_power (Parametric.distributions cfg test_name) samples
      = inr traditional /\
    subsample_power Q
      (Parametric.empr_power (Parametric.distributions cfg test_name) samples)
      (rng w) = (inr emperical, g1) /\
    len_first samples = Some n /\
    Parametric.test (Parametric.distributions cfg test_name) samples = inr p /\
    files w' !! Parametric.power_fp test_name i = Some (Summary
      {| PowerSummary.emperical := emperical;
         PowerSummary.traditional := Some traditional;
         PowerSummary.original_p := p;
         PowerSummary.num_obs := n;
         PowerSummary.counts := Parametric.counts cfg;
         PowerSummary.alpha := Parametric.alpha cfg;
         PowerSummary.depth := None |}).
Proof.
  unfold Parametric.work_item.
  intros (e & w0 & [-> He]%os_path_exists_inv & Hrest)%bind_ok_inv Hcompute.
  assert (e && negb (Parametric.overwrite cfg) = false) as Hskip.
  { destruct Hcompute as [->|Hne]; [apply andb_false_r|].
    destruct e; [|done]. exfalso. by apply Hne, He. }
  rewrite Hskip in Hrest.
  apply bind_ok_inv in Hrest
    as (simulation & w1 & (_ & Hfile & ->)%pickle_load_readable & Hrest).
  apply bind_ok_inv in Hrest as (s & w1 & [-> ->]%get_samples_ok_inv & Hrest).
  destruct s as [| |samples]; try done.
  apply bind_ok_inv in Hrest as (traditional & w1 & Htrad & Hrest).
  injection Htrad as Htrad <-.
  apply bind_ok_inv in Hrest
    as (emperical & w1 & (g1 & Hpower & ->)%call_subsample_power_ok_inv & Hrest).
  apply bind_ok_inv in Hrest as (n & w2 & [Hn ->]%or_raise_ok_inv & Hrest).
  apply bind_ok_inv in Hrest as (p & w2 & Hp & Hrest).
  injection Hp as Hp <-.
  apply pickle_dump_ok_inv in Hrest as ->.
  exists samples, traditional, emperical, g1, n, p.
  repeat (split; [done|]). simpl. by rewrite lookup_insert_eq.
Qed.

End Wrappers.

(** ** C4: the summary record *)




(** ** Work items of the distance-based notebook *)

Section DistanceItems.
Context `{E : Externals}.
Implicit Types (w : World) (cfg : Distance.Config).
Implicit Types (items : list Distance.family).

Lemma distance_input_is_not_output test i test' j :
  Distance.power_fp test' j <> Distance.simulation_fp test i.
Proof. done. Qed.

Lemma distance_event_dump cfg items q test i :
  distance_event cfg items (EvDump q) -> q <> Distance.simulation_fp test i.
Proof. intros (j & test' & _ & _ & ->). apply distance_input_is_not_output. Qed.

Lemma only_loads_refl w : only_loads w w.
Proof.
  split; [done|]. split; [done|]. exists []. by rewrite app_nil_r.
Qed.

Lemma only_loads_trans w1 w2 w3 :
  only_loads w1 w2 -> only_loads w2 w3 -> only_loads w1 w3.
Proof.
  intros (Hd1 & Hf1 & evs1 & Hev1 & Hl1) (Hd2 & Hf2 & evs2 & Hev2 & Hl2).
  split; [congruence|]. split; [congruence|].
  exists (evs1 ++ evs2). split; [by rewrite Hev2, Hev1, app_assoc|].
  by apply Forall_app.
Qed.

Lemma only_loads_log w p : only_loads w (log (EvLoad p) w).2.
Proof.
  split; [done|]. split; [done|]. exists [EvLoad p]. split; [done|].
  by constructor.
Qed.

Lemma only_loads_exists w w' p :
  only_loads w w' -> exists_on_disk w p -> exists_on_disk w' p.
Proof. intros (Hd & Hf & _). unfold exists_on_disk. by rewrite Hd, Hf. Qed.

Lemma only_loads_readable w w' p :
  only_loads w w' -> readable w p -> readable w' p.
Proof. intros (Hd & Hf & _). unfold readable. by rewrite Hf. Qed.

Lemma only_loads_new_events w w' :
  only_loads w w' -> Forall is_load (new_events w w').
Proof.
  intros (_ & _ & evs & Hev & Hl). unfold new_events.
  by rewrite Hev, drop_app_length.
Qed.

(** With [overwrite] off and the output on disk, a work item opens its
    input and does nothing else, whether or not the input can be read. *)
Lemma distance_work_item_skip_world cfg i test w :
  Distance.overwrite cfg = false ->
  exists_on_disk w (Distance.power_fp test i) ->
  (Distance.work_item cfg i test w).2 =
    (log (EvLoad (Distance.simulation_fp test i)) w).2.
Proof.
  intros Hover Hout. unfold Distance.work_item, mbind at 1, SE_bind.
  pose proof (pickle_load_world w (Distance.simulation_fp test i)) as Hw.
  destruct (pickle_load (Distance.simulation_fp test i) w) as [[e|sim] w1];
    simpl in Hw; subst w1; [done|].
  rewrite (bind_ok _ _ _ true _
             (os_path_exists_true
                (log (EvLoad (Distance.simulation_fp test i)) w).2 _ Hout)).
  by rewrite Hover.
Qed.

Lemma distance_work_item_skip cfg i test w :
  Distance.overwrite cfg = false ->
  exists_on_disk w (Distance.power_fp test i) ->
  readable w (Distance.simulation_fp test i) ->
  Distance.work_item cfg i test w =
    (inr tt, (log (EvLoad (Distance.simulation_fp test i)) w).2).
Proof.
  intros Hover Hout (sim & Hload)%pickle_load_ok. unfold Distance.work_item.
  rewrite (bind_ok _ _ _ _ _ Hload).
  rewrite (bind_ok _ _ _ true _
             (os_path_exists_true
                (log (EvLoad (Distance.simulation_fp test i)) w).2 _ Hout)).
  by rewrite Hover.
Qed.

Lemma distance_work_item_missing cfg i test w :
  files w !! Distance.simulation_fp test i = None ->
  Distance.work_item cfg i test w =
    (inl (FileNotFoundError (Distance.simulation_fp test i)),
     (log (EvLoad (Distance.simulation_fp test i)) w).2).
Proof.
  intros Hmissing. unfold Distance.work_item.
  by rewrite (bind_raise _ _ _ _ _ (pickle_load_missing _ _ Hmissing)).
Qed.

Lemma sim_func_ok test simulation a d fp w w' :
  Distance.sim_func test simulation a d fp w = (inr tt, w') ->
  fp ∈ dom (files w').
Proof.
  destruct test; simpl.
  - intros (? & ? & ? & ? & ? & ? & ? & _ & _ & _ & _ & Hfile)%calculate_mantel_power_ok.
    by apply elem_of_dom.
  - intros (? & ? & ? & ? & ? & ? & ? & _ & _ & _ & _ & Hfile)%calculate_permanova_power_ok.
    by apply elem_of_dom.
Qed.

(** A work item that returns has read its input, and leaves its output on
    disk. *)
Lemma distance_work_item_ok_inv cfg i test w w' :
  Distance.work_item cfg i test w = (inr tt, w') ->
  readable w (Distance.simulation_fp test i) /\
  exists_on_disk w' (Distance.power_fp test i).
Proof.
  unfold Distance.work_item.
  intros (sim & w1 & (Hread & _ & ->)%pickle_load_readable & Hrest)%bind_ok_inv.
  split; [done|].
  apply bind_ok_inv in Hrest as (e & w1 & [-> He]%os_path_exists_inv & Hrest).
  destruct (Distance.overwrite cfg || negb e) eqn:Hgo.
  - apply bind_ok_inv in Hrest as ([] & w1 & _ & Hrest).
    right. by eapply sim_func_ok.
  - injection Hrest as <-. apply orb_false_elim in Hgo as [_ He'].
    apply He. by destruct e.
Qed.

Lemma distance_work_item_done cfg items i test w w' :
  (i < Distance.num_rounds cfg)%nat -> test ∈ items ->
  Distance.work_item cfg i test w = (inr tt, w') ->
  readable w' (Distance.simulation_fp test i) /\
  exists_on_disk w' (Distance.power_fp test i).
Proof.
  intros Hi Htest Hrun.
  pose proof (distance_work_item_ok_inv _ _ _ _ _ Hrun) as [Hread Hout].
  split; [|done].
  pose proof (sound_distance_work_item cfg i test w) as Hext.
  rewrite Hrun in Hext. simpl in Hext.
  eapply extends_readable; [exact Hext| |done].
  intros q ->. apply distance_input_is_not_output.
Qed.

(** The loops establish this for every work item. *)
Lemma distance_power_loop_ok cfg items w w' :
  Distance.power_loop cfg items w = (inr tt, w') ->
  Distance.num_cpus cfg <> 0%nat /\
  forall i test, (i < Distance.num_rounds cfg)%nat -> test ∈ items ->
    readable w' (Distance.simulation_fp test i) /\
    exists_on_disk w' (Distance.power_fp test i).
Proof.
  unfold Distance.power_loop.
  intros ([] & w0 & Hpool & Hloop)%bind_ok_inv.
  unfold Distance.Pool in Hpool. case_decide as Hcpu; [done|].
  injection Hpool as <-. split; [done|].
  intros i test Hi Htest.
  pose (Q := fun (t : Distance.family) (j : nat) (w1 : World) =>
          readable w1 (Distance.simulation_fp t j) /\
          exists_on_disk w1 (Distance.power_fp t j)).
  assert (forall t j w1 w2, Q t j w1 ->
            extends (distance_event cfg items) w1 w2 -> Q t j w2) as Hstable.
  { intros t j w1 w2 [Hr He] Hext. split.
    - eapply extends_readable; [exact Hext| |done].
      intros q Hq. by eapply distance_event_dump.
    - by eapply extends_exists. }
  assert (forall j t w1, (j < Distance.num_rounds cfg)%nat -> t ∈ items ->
            extends (distance_event cfg items) w1
              (Distance.work_item cfg j t w1).2) as Hitem.
  { intros j t w1 Hj Ht. eapply extends_mono; [|apply sound_distance_work_item].
    intros ev Hev. by exists j, t. }
  refine (for_each_establishes
            (fun j w1 => forall t, t ∈ items -> Q t j w1)
            (extends (distance_event cfg items)) _ _
            (extends_refl _) (extends_trans _) _ _ _ w w' Hloop i _ test Htest).
  - intros j w1 w2 HQ Hext t Ht. eapply Hstable; eauto.
  - intros j w1 Hj%list_elem_of_In%in_seq.
    apply (for_each_related (extends (distance_event cfg items)));
      [apply extends_refl | apply extends_trans |].
    intros t w2 Ht. apply Hitem; [lia | done].
  - intros j w1 w2 Hj%list_elem_of_In%in_seq Hinner.
    refine (for_each_establishes (fun t w3 => Q t j w3)
              (extends (distance_event cfg items)) _ _
              (extends_refl _) (extends_trans _) _ _ _ w1 w2 Hinner).
    + intros t w3 w4. apply Hstable.
    + intros t w3 Ht. apply Hitem; [lia | done].
    + intros t w3 w4 Ht Hrun.
      eapply distance_work_item_done; [|exact Ht|exact Hrun]. lia.
  - apply list_elem_of_In, in_seq. lia.
Qed.

End DistanceItems.

(** ** A second run of the distance-based notebook *)

Section DistanceRerun.
Context `{E : Externals}.
Implicit Types (w : World) (cfg : Distance.Config).
Implicit Types (items : list Distance.family).

Lemma make_dirs_ok_inv test w w' :
  Distance.make_dirs test w = (inr tt, w') ->
  exists_on_disk w' (Distance.sim_dir test) /\
  exists_on_disk w' (Distance.power_dir test).
Proof.
  unfold Distance.make_dirs.
  intros (e & w0 & [-> He]%os_path_exists_inv & Hrest)%bind_ok_inv.
  apply bind_ok_inv in Hrest as ([] & w1 & Hsim & Hrest).
  apply bind_ok_inv in Hrest as (e' & w2 & [-> He']%os_path_exists_inv & Hpow).
  assert (exists_on_disk w1 (Distance.sim_dir test)) as Hs.
  { destruct e; simpl in Hsim.
    - injection Hsim as <-. by apply He.
    - by apply os_makedirs_ok_inv in Hsim. }
  destruct e'; simpl in Hpow.
  - injection Hpow as <-. split; [done | by apply He'].
  - split; [|by apply os_makedirs_ok_inv in Hpow].
    pose proof (sound_os_makedirs (fun _ => True) (Distance.power_dir test) w1)
      as Hext.
    rewrite Hpow in Hext. by eapply extends_exists.
Qed.

Lemma make_dirs_again test w :
  exists_on_disk w (Distance.sim_dir test) ->
  exists_on_disk w (Distance.power_dir test) ->
  Distance.make_dirs test w = (inr tt, w).
Proof.
  intros Hs Hp. unfold Distance.make_dirs.
  rewrite (bind_ok _ _ _ true _ (os_path_exists_true _ _ Hs)). cbn [negb].
  rewrite (bind_ok _ _ w tt w); [|done].
  by rewrite (bind_ok _ _ _ true _ (os_path_exists_true _ _ Hp)).
Qed.

Lemma distance_main_complete cfg items w w' :
  Distance.main cfg items w = (inr tt, w') -> distance_complete cfg items w'.
Proof.
  intros Hrun.
  pose proof (sound_distance_main cfg items w) as Hext.
  rewrite Hrun in Hext. simpl in Hext.
  unfold Distance.main in Hrun.
  apply bind_ok_inv in Hrun as ([] & w0 & [= <-] & Hrun).
  apply bind_ok_inv in Hrun as (e & w0 & [-> He]%os_path_exists_inv & Hrun).
  destruct e; simpl in Hrun; [|done].
  apply bind_ok_inv in Hrun as ([] & w1 & Hdirs & Hloop).
  pose proof (sound_distance_power_loop cfg items w1) as Hext1.
  rewrite Hloop in Hext1. simpl in Hext1.
  apply distance_power_loop_ok in Hloop as [Hcpu Hitems].
  split; [|split; [done|split; [|done]]].
  - eapply extends_exists; [exact Hext|]. by apply He.
  - intros test Htest.
    assert (exists_on_disk w1 (Distance.sim_dir test) /\
            exists_on_disk w1 (Distance.power_dir test)) as [Hs Hp].
    { refine (for_each_establishes
                (fun t w2 => exists_on_disk w2 (Distance.sim_dir t) /\
                             exists_on_disk w2 (Distance.power_dir t))
                (extends (fun _ => True)) _ _
                (extends_refl _) (extends_trans _) _ _ _ _ w1 Hdirs test Htest).
      - intros t w2 w3 [Hs Hp] Hext2. split; by eapply extends_exists.
      - intros t w2 _. apply sound_make_dirs.
      - intros t w2 w3 _. apply make_dirs_ok_inv. }
    split; by eapply extends_exists.
Qed.

(** On a disk a run has completed, a run with [overwrite] off returns,
    having only opened the inputs again. *)
Lemma distance_main_again cfg items w :
  Distance.overwrite cfg = false ->
  distance_complete cfg items w ->
  exists w', Distance.main cfg items w = (inr tt, w') /\
    dirs w' = dirs w /\ files w' = files w /\
    Forall is_load (new_events w w').
Proof.
  intros Hover (Hloc & Hcpu & Hdirs & Hitems).
  set (w0 := (np_seed 25 w).2).
  assert (only_loads w w0) as H0.
  { split; [done|]. split; [done|]. exists []. by rewrite app_nil_r. }
  assert (exists w', Distance.main cfg items w = (inr tt, w') /\ only_loads w w')
    as (w' & Hrun & Hw').
  { unfold Distance.main.
    rewrite (bind_ok _ _ w tt w0); [|done].
    rewrite (bind_ok _ _ w0 true w0);
      [|by apply os_path_exists_true, (only_loads_exists w)].
    simpl.
    destruct (for_each_invariant (fun w1 => only_loads w w1) items
                Distance.make_dirs) with (s := w0) as (w1 & Hmk & Hw1); [|done|].
    { intros test w1 Htest Hw1. exists w1. split; [|done].
      destruct (Hdirs test Htest) as [Hs Hp].
      apply make_dirs_again; by apply (only_loads_exists w). }
    rewrite (bind_ok _ _ _ _ _ Hmk). unfold Distance.power_loop.
    rewrite (bind_ok _ _ w1 tt w1);
      [|unfold Distance.Pool; by case_decide].
    apply for_each_invariant; [|done].
    intros i w2 Hi%list_elem_of_In%in_seq Hw2.
    apply for_each_invariant; [|done].
    intros test w3 Htest Hw3.
    destruct (Hitems i test) as [Hr Ho]; [lia | done |].
    eexists. split.
    - apply distance_work_item_skip; [done|..].
      + by apply (only_loads_exists w).
      + by apply (only_loads_readable w).
    - eapply only_loads_trans; [exact Hw3 | apply only_loads_log]. }
  exists w'. split; [done|].
  pose proof (only_loads_new_events _ _ Hw') as Hl.
  by destruct Hw' as (Hd & Hf & _).
Qed.

End DistanceRerun.

(** ** Work items and a second run of the parametric notebook *)

Section ParametricItems.
Context `{E : Externals}.
Implicit Types (w : World) (cfg : Parametric.Config).

(** With [overwrite] off and the output on disk, a work item does nothing
    at all. *)
Lemma parametric_work_item_skip cfg test_name i w :
  Parametric.overwrite cfg = false ->
  exists_on_disk w (Parametric.power_fp test_name i) ->
  Parametric.work_item cfg test_name i w = (inr tt, w).
Proof.
  intros Hover Hout. unfold Parametric.work_item.
  rewrite (bind_ok _ _ _ true _ (os_path_exists_true _ _ Hout)).
  by rewrite Hover.
Qed.

Lemma parametric_work_item_missing cfg test_name i w :
  Parametric.overwrite cfg = true \/
    ~ exists_on_disk w (Parametric.power_fp test_name i) ->
  files w !! Parametric.sim_fp test_name i = None ->
  Parametric.work_item cfg test_name i w =
    (inl (FileNotFoundError (Parametric.sim_fp test_name i)),
     (log (EvLoad (Parametric.sim_fp test_name i)) w).2).
Proof.
  intros Hcompute Hmissing. unfold Parametric.work_item.
  destruct (os_path_exists (Parametric.power_fp test_name i) w)
    as [r w0] eqn:Hexists.
  unfold os_path_exists in Hexists. injection Hexists as <- <-.
  rewrite (bind_ok _ _ w
             (bool_decide (exists_on_disk w (Parametric.power_fp test_name i)))
             w); [|done].
  assert (bool_decide (exists_on_disk w (Parametric.power_fp test_name i))
          && negb (Parametric.overwrite cfg) = false) as ->.
  { destruct Hcompute as [->|Hne]; [apply andb_false_r|].
    by rewrite bool_decide_eq_false_2. }
  by rewrite (bind_raise _ _ _ _ _ (pickle_load_missing _ _ Hmissing)).
Qed.

Lemma parametric_work_item_ok_exists cfg test_name i w w' :
  Parametric.work_item cfg test_name i w = (inr tt, w') ->
  exists_on_disk w' (Parametric.power_fp test_name i).
Proof.
  intros Hrun.
  destruct (decide (Parametric.power_fp test_name i ∈ dirs w \/
                    Parametric.power_fp test_name i ∈ dom (files w)))
    as [Hout|Hout].
  - pose proof (sound_parametric_work_item cfg test_name i w) as Hext.
    rewrite Hrun in Hext. by eapply extends_exists.
  - destruct (parametric_work_item_ok _ _ _ _ _ Hrun (or_intror Hout))
      as (? & ? & ? & ? & ? & ? & _ & _ & _ & _ & _ & Hfile).
    right. by apply elem_of_dom.
Qed.

Lemma parametric_family_loop_ok_inv cfg test_name w w' :
  Parametric.family_loop cfg test_name w = (inr tt, w') ->
  exists_on_disk w' (Parametric.power_dir test_name) /\
  forall i, (i < Parametric.num_rounds cfg)%nat ->
    exists_on_disk w' (Parametric.power_fp test_name i).
Proof.
  unfold Parametric.family_loop.
  intros (e & w0 & [-> He]%os_path_exists_inv & Hrest)%bind_ok_inv.
  apply bind_ok_inv in Hrest as ([] & w1 & Hdir & Hloop).
  assert (exists_on_disk w1 (Parametric.power_dir test_name)) as Hd.
  { destruct e; simpl in Hdir.
    - injection Hdir as <-. by apply He.
    - by apply os_makedirs_ok_inv in Hdir. }
  assert (forall j w2, j ∈ seq 0 (Parametric.num_rounds cfg) ->
            extends (parametric_item_event cfg test_name j) w2
              (Parametric.work_item cfg test_name j w2).2) as Hitem
    by (intros j w2 _; apply sound_parametric_work_item).
  split.
  - pose proof (for_each_related (extends (fun _ => True)) _
                  (Parametric.work_item cfg test_name)
                  (extends_refl _) (extends_trans _)
                  (fun j w2 Hj => extends_mono _ _ _ _ (fun _ _ => I)
                                    (Hitem j w2 Hj)) w1) as Hext.
    rewrite Hloop in Hext. by eapply extends_exists.
  - intros i Hi.
    refine (for_each_establishes
              (fun j w2 => exists_on_disk w2 (Parametric.power_fp test_name j))
              (extends (fun _ => True)) _ _
              (extends_refl _) (extends_trans _) _ _ _ w1 w' Hloop i _).
    + intros j w2 w3 Hj Hext. by eapply extends_exists.
    + intros j w2 Hj. eapply extends_mono; [|by apply Hitem]. done.
    + intros j w2 w3 _. apply parametric_work_item_ok_exists.
    + apply list_elem_of_In, in_seq. lia.
Qed.

Lemma parametric_main_complete cfg w w' :
  Parametric.main cfg w = (inr tt, w') -> parametric_complete cfg w'.
Proof.
  intros Hrun.
  pose proof (sound_parametric_main cfg w) as Hext.
  rewrite Hrun in Hext. simpl in Hext.
  unfold Parametric.main in Hrun.
  apply bind_ok_inv in Hrun as (e & w0 & [-> He]%os_path_exists_inv & Hrun).
  destruct e; cbn [negb] in Hrun; [|done].
  split; [eapply extends_exists; [exact Hext | by apply He]|].
  intros test_name.
  refine (for_each_establishes
            (fun t w2 =>
               exists_on_disk w2 (Parametric.power_dir t) /\
               forall i, (i < Parametric.num_rounds cfg)%nat ->
                 exists_on_disk w2 (Parametric.power_fp t i))
            (extends (parametric_event cfg)) _ _
            (extends_refl _) (extends_trans _) _ _ _ w w' Hrun test_name _).
  - intros t w2 w3 [Hd Hi] Hext2. split; [by eapply extends_exists|].
    intros i Hlt. eapply extends_exists; [exact Hext2 | by apply Hi].
  - intros t w2 _. apply sound_parametric_family_loop.
  - intros t w2 w3 _. apply parametric_family_loop_ok_inv.
  - destruct test_name; apply list_elem_of_In; simpl; tauto.
Qed.

(** On a disk a run has completed, a run with [overwrite] off returns and
    changes nothing at all. *)
Lemma parametric_main_again cfg w :
  Parametric.overwrite cfg = false ->
  parametric_complete cfg w ->
  Parametric.main cfg w = (inr tt, w).
Proof.
  intros Hover [Hloc Hdone]. unfold Parametric.main.
  rewrite (bind_ok _ _ _ true _ (os_path_exists_true _ _ Hloc)). cbn [negb].
  destruct (for_each_invariant (fun w1 => w1 = w) Parametric.parametric
              (Parametric.family_loop cfg)) with (s := w)
    as (w' & Hrun & ->); [|done|done].
  intros test_name w1 _ ->. exists w. split; [|done].
  destruct (Hdone test_name) as [Hdir Hitems].
  unfold Parametric.family_loop.
  rewrite (bind_ok _ _ _ true _ (os_path_exists_true _ _ Hdir)). cbn [negb].
  rewrite (bind_ok _ _ w tt w); [|done].
  destruct (for_each_invariant (fun w1 => w1 = w)
              (seq 0 (Parametric.num_rounds cfg))
              (Parametric.work_item cfg test_name)) with (s := w)
    as (w' & Hrun & ->); [|done|done].
  intros i w1 Hi%list_elem_of_In%in_seq ->. exists w. split; [|done].
  apply parametric_work_item_skip; [done|]. apply Hitems. lia.
Qed.

End ParametricItems.

(** ** C5: overwrite and idempotence *)

(** C5: with [overwrite] off, a work item whose output file exists makes no
    estimator call and writes nothing (the parametric notebook returns at
    once; the distance-based one opens the input and moves on), so that an
    estimator call or a dump happens only when the output is absent or
    [overwrite] is on; and after a run that returned, a second run with
    [overwrite] off returns too, computes nothing, and leaves the
    directories and every file as they were. *)
Theorem C5_overwrite_false_skips `{E : Externals} :
  (forall cfg test_name i (w : World),
     Parametric.overwrite cfg = false ->
     exists_on_disk w (Parametric.power_fp test_name i) ->
     Parametric.work_item cfg test_name i w = (inr tt, w)) /\
  (forall cfg i test (w : World),
     Distance.overwrite cfg = false ->
     exists_on_disk w (Distance.power_fp test i) ->
     (Distance.work_item cfg i test w).2 =
       (log (EvLoad (Distance.simulation_fp test i)) w).2) /\
  (forall cfg test_name i (w : World) ev,
     ev ∈ new_events w (Parametric.work_item cfg test_name i w).2 ->
     Parametric.overwrite cfg = true \/
       ~ exists_on_disk w (Parametric.power_fp test_name i)) /\
  (forall cfg i test (w : World) ev,
     ev ∈ new_events w (Distance.work_item cfg i test w).2 ->
     ~ is_load ev ->
     Distance.overwrite cfg = true \/
       ~ exists_on_disk w (Distance.power_fp test i)) /\
  (forall cfg (w w1 : World),
     Parametric.main cfg w = (inr tt, w1) ->
     Parametric.main (parametric_set_overwrite false cfg) w1 = (inr tt, w1)) /\
  (forall cfg items (w w1 : World),
     Distance.main cfg items w = (inr tt, w1) ->
     exists w2,
       Distance.main (distance_set_overwrite false cfg) items w1 = (inr tt, w2) /\
       dirs w2 = dirs w1 /\ files w2 = files w1 /\
       Forall is_load (new_events w1 w2)).
Proof.
  split; [|split; [|split; [|split; [|split]]]].
  - apply parametric_work_item_skip.
  - apply distance_work_item_skip_world.
  - intros cfg test_name i w ev Hev.
    destruct (Parametric.overwrite cfg) eqn:Hover; [by left | right].
    intros Hout.
    rewrite (parametric_work_item_skip _ _ _ _ Hover Hout) in Hev.
    unfold new_events in Hev. simpl in Hev. rewrite drop_all in Hev.
    by apply elem_of_nil in Hev.
  - intros cfg i test w ev Hev Hnl.
    destruct (Distance.overwrite cfg) eqn:Hover; [by left | right].
    intros Hout.
    rewrite (distance_work_item_skip_world _ _ _ _ Hover Hout) in Hev.
    unfold new_events in Hev. simpl in Hev. rewrite drop_app_length in Hev.
    apply list_elem_of_singleton in Hev as ->. by apply Hnl.
  - intros cfg w w1 Hrun%parametric_main_complete.
    by apply parametric_main_again.
  - intros cfg items w w1 Hrun%distance_main_complete.
    by apply distance_main_again.
Qed.

Lemma C5_overwrite_false_skips_witness :
  let items := [Distance.mantel; Distance.permanova] in
  exists w1 w2,
    Distance.main (E:=Demo.externals) Demo.distance_cfg items Demo.distance_world
      = (inr tt, w1) /\
    Distance.main (distance_set_overwrite false Demo.distance_cfg) items w1
      = (inr tt, w2) /\
    dirs w2 = dirs w1 /\ files w2 = files w1 /\
    Forall is_load (new_events w1 w2).
Proof.
  intros items.
  set (w1 := (Distance.main (E:=Demo.externals) Demo.distance_cfg items
                Demo.distance_world).2).
  assert ((Distance.main (E:=Demo.externals) Demo.distance_cfg items
             Demo.distance_world).1
          = inr tt) as Hfst by (vm_compute; reflexivity).
  pose proof (run_returns _ _ _ Hfst) as Hrun. fold w1 in Hrun.
  destruct (proj2 (proj2 (proj2 (proj2 (proj2
              (C5_overwrite_false_skips (E:=Demo.externals))))))
              Demo.distance_cfg items Demo.distance_world w1 Hrun)
    as (w2 & Hagain).
  exists w1, w2. split; [exact Hrun | exact Hagain].
Defined.

(** ** C7: a failing work item *)





(** ** C8: the simulations directory *)



(** ** C10: loading before the skip test *)

(** C10: the distance-based work item opens and unpickles its input
    before it looks at [overwrite] and the output: with the input missing
    it raises [FileNotFoundError] whatever [overwrite] is and whether or
    not the output exists, with the output in place and [overwrite] off it
    still opens the input before skipping, and a run that returns has found
    every input of every replicate readable.  The parametric work item
    tests the output first: with the output in place and [overwrite] off it
    returns without opening anything, whether or not the input exists. *)
Theorem C10_load_before_skip `{E : Externals} :
  (forall cfg i test (w : World),
     files w !! Distance.simulation_fp test i = None ->
     Distance.work_item cfg i test w =
       (inl (FileNotFoundError (Distance.simulation_fp test i)),
        (log (EvLoad (Distance.simulation_fp test i)) w).2)) /\
  (forall cfg i test (w : World),
     Distance.overwrite cfg = false ->
     exists_on_disk w (Distance.power_fp test i) ->
     readable w (Distance.simulation_fp test i) ->
     Distance.work_item cfg i test w =
       (inr tt, (log (EvLoad (Distance.simulation_fp test i)) w).2)) /\
  (forall cfg items (w w' : World),
     Distance.power_loop cfg items w = (inr tt, w') ->
     forall i test, (i < Distance.num_rounds cfg)%nat -> test ∈ items ->
       readable w (Distance.simulation_fp test i)) /\
  (forall cfg test_name i (w : World),
     Parametric.overwrite cfg = false ->
     exists_on_disk w (Parametric.power_fp test_name i) ->
     Parametric.work_item cfg test_name i w = (inr tt, w)).
Proof.
  split; [|split; [|split]].
  - apply distance_work_item_missing.
  - apply distance_work_item_skip.
  - intros cfg items w w' Hrun i test Hi Htest.
    pose proof (sound_distance_power_loop cfg items w) as Hext.
    rewrite Hrun in Hext.
    apply distance_power_loop_ok in Hrun as [_ Hitems].
    eapply extends_readable_back; [exact Hext| |by apply Hitems].
    intros q Hq. by eapply distance_event_dump.
  - apply parametric_work_item_skip.
Qed.

Lemma C10_load_before_skip_witness :
  let fp := Distance.power_fp Distance.mantel 0 in
  let summary :=
    {| PowerSummary.emperical := []; PowerSummary.traditional := None;
       PowerSummary.original_p := 1 # 100; PowerSummary.num_obs := 40;
       PowerSummary.counts := [5; 15; 25]; PowerSummary.alpha := 5 # 100;
       PowerSummary.depth := Some 99%nat |} in
  let w := Demo.world [Distance.power_dir Distance.mantel] [(fp, Summary summary)] in
  files w !! Distance.simulation_fp Distance.mantel 0 = None /\
  exists_on_disk w fp /\
  Distance.work_item (E:=Demo.externals) Demo.distance_cfg 0 Distance.mantel w =
    (inl (FileNotFoundError (Distance.simulation_fp Distance.mantel 0)),
     (log (EvLoad (Distance.simulation_fp Distance.mantel 0)) w).2).
Proof.
  intros fp summary w.
  assert (files w !! Distance.simulation_fp Distance.mantel 0 = None) as Hmissing
    by (vm_compute; reflexivity).
  split; [exact Hmissing|]. split.
  - right. apply elem_of_dom. eexists. vm_compute. reflexivity.
  - exact (proj1 (C10_load_before_skip (E:=Demo.externals))
             Demo.distance_cfg 0%nat Distance.mantel w Hmissing).
Defined.

(** * Further properties of the notebooks *)

(** ** The schedules of the distance-based wrappers *)




(** ** The PERMANOVA pool *)

Lemma filter_fst_NoDup (groups : Series) (P : ident * Z -> Prop)
    `{!forall row, Decision (P row)} :
  NoDup groups.*1 -> NoDup (map fst (filter P groups)).
Proof.
  intros Hnd. eapply sublist_NoDup; [exact Hnd|].
  apply (fmap_sublist fst), sublist_filter.
Qed.

(** With a unique index, the two PERMANOVA groups share no observation and
    repeat none, so the ids the test function filters the distance matrix
    by are pairwise distinct, and there are at most as many as rows. *)
Theorem permanova_pool_distinct groups :
  NoDup groups.*1 ->
  NoDup (Np.hstack (Distance.permanova_samples groups)) /\
  (length (Np.hstack (Distance.permanova_samples groups)) <= length groups)%nat.
Proof.
  intros Hnd. rewrite permanova_samples_eq. unfold Np.hstack. simpl.
  rewrite app_nil_r. split.
  - apply NoDup_app. split; [by apply filter_fst_NoDup|].
    split; [|by apply filter_fst_NoDup].
    intros id ([id0 l0] & -> & [Hl0 Hin0]%list_elem_of_filter)%list_elem_of_fmap
              ([id1 l1] & Heq & [Hl1 Hin1]%list_elem_of_filter)%list_elem_of_fmap.
    simpl in *. subst id1 l0 l1.
    by pose proof (unique_index_label _ _ _ _ Hnd Hin0 Hin1).
  - rewrite length_app, !length_map.
    induction groups as [|[id l] groups IH]; [done|].
    apply NoDup_cons in Hnd as [_ Hnd]. specialize (IH Hnd).
    rewrite !filter_cons. simpl.
    repeat case_decide; simpl; lia.
Qed.

Lemma permanova_pool_distinct_witness :
  NoDup Demo.four_obs_groups.*1 /\
  NoDup (Np.hstack (Distance.permanova_samples Demo.four_obs_groups)) /\
  (length (Np.hstack (Distance.permanova_samples Demo.four_obs_groups))
     <= length Demo.four_obs_groups)%nat.
Proof.
  assert (NoDup Demo.four_obs_groups.*1) as Hnd by compute_done.
  split; [exact Hnd|].
  exact (permanova_pool_distinct Demo.four_obs_groups Hnd).
Defined.

(** ** Steps that keep a relation *)

Section Keeps.
Context {S : Type} (R : S -> S -> Prop).
Hypothesis R_refl : forall s, R s s.
Hypothesis R_trans : forall s1 s2 s3, R s1 s2 -> R s2 s3 -> R s1 s3.

Lemma keeps_ret {X} (x : X) : keeps R (mret x).
Proof. intros s. apply R_refl. Qed.

Lemma keeps_raise {X} e : keeps (X:=X) R (raise e).
Proof. intros s. apply R_refl. Qed.

Lemma keeps_pure_call {X} (r : exn + X) : keeps R (pure_call r).
Proof. intros s. apply R_refl. Qed.

Lemma keeps_or_raise {X} (o : option X) e : keeps R (or_raise o e).
Proof. destruct o; [apply keeps_ret | apply keeps_raise]. Qed.

Lemma keeps_bind {X Y} (m : SE S X) (k : X -> SE S Y) :
  keeps R m -> (forall x, keeps R (k x)) -> keeps R (m ≫= k).
Proof.
  intros Hm Hk s. specialize (Hm s). unfold mbind, SE_bind.
  destruct (m s) as [[e|x] s1]; [done|].
  eapply R_trans; [exact Hm | apply Hk].
Qed.

Lemma keeps_for_each {A} (l : list A) (body : A -> SE S unit) :
  (forall x, x ∈ l -> keeps R (body x)) -> keeps R (for_each l body).
Proof.
  intros Hbody. unfold keeps. apply (for_each_related R); [done..|].
  intros x s Hx. by apply Hbody.
Qed.



End Keeps.

Lemma keeps_mono {S X} (R R' : S -> S -> Prop) (m : SE S X) :
  (forall s s', R s s' -> R' s s') -> keeps R m -> keeps R' m.
Proof. intros HR Hm s. apply HR, Hm. Qed.


(** ** What the steps do to the disk *)

Section Disk.
Context `{E : Externals}.
Implicit Types (w : World) (p : path).

Lemma same_disk_refl w : same_disk w w.
Proof. done. Qed.

Lemma same_disk_trans w1 w2 w3 :
  same_disk w1 w2 -> same_disk w2 w3 -> same_disk w1 w3.
Proof. intros [Hd1 Hf1] [Hd2 Hf2]. split; congruence. Qed.

Lemma same_dirs_refl w : same_dirs w w.
Proof. done. Qed.

Lemma same_dirs_trans w1 w2 w3 :
  same_dirs w1 w2 -> same_dirs w2 w3 -> same_dirs w1 w3.
Proof. unfold same_dirs. congruence. Qed.

Lemma same_disk_dirs w w' : same_disk w w' -> same_dirs w w'.
Proof. by intros [Hd _]. Qed.

Lemma keeps_disk_log ev : keeps same_disk (log ev).
Proof. done. Qed.

Lemma keeps_disk_with_rng {X} (r : SE RNG X) : keeps same_disk (with_rng r).
Proof. intros w. unfold with_rng. by destruct (r (rng w)). Qed.

Lemma keeps_disk_np_seed n : keeps same_disk (np_seed n).
Proof. done. Qed.

Lemma keeps_disk_os_path_exists p : keeps same_disk (os_path_exists p).
Proof. done. Qed.

Lemma keeps_disk_unpickle p : keeps same_disk (unpickle p).
Proof. intros w. unfold unpickle. by destruct (files w !! p) as [[]|]. Qed.

Lemma keeps_disk_pickle_load p : keeps same_disk (pickle_load p).
Proof.
  apply keeps_bind; [apply same_disk_trans | apply keeps_disk_log |].
  intros _. apply keeps_disk_unpickle.
Qed.

Lemma keeps_disk_get_samples simulation : keeps same_disk (get_samples simulation).
Proof. by destruct simulation. Qed.

Lemma keeps_disk_call_subsample_power {A} (c : power_call RNG A) :
  keeps same_disk (call_subsample_power c).
Proof.
  apply keeps_bind; [apply same_disk_trans | apply keeps_disk_log |].
  intros _. apply keeps_disk_with_rng.
Qed.


Lemma keeps_dirs_pickle_dump s p : keeps same_dirs (pickle_dump s p).
Proof. intros w. unfold pickle_dump. by repeat case_bool_decide. Qed.

End Disk.

Ltac keeps_disk_step :=
  first
    [ apply keeps_disk_pickle_load
    | apply keeps_disk_os_path_exists
    | apply keeps_disk_get_samples
    | apply keeps_disk_call_subsample_power
    | apply keeps_disk_with_rng
    | apply keeps_disk_log
    | apply (keeps_or_raise same_disk same_disk_refl)
    | apply (keeps_pure_call same_disk same_disk_refl)
    | apply (keeps_ret same_disk same_disk_refl)
    | apply (keeps_raise same_disk same_disk_refl) ].


Ltac keeps_dirs_bind :=
  apply (keeps_bind same_dirs same_dirs_trans);
  [apply (keeps_mono same_disk same_dirs _ same_disk_dirs); keeps_disk_step
  | intros ?].

Section DiskOfWorkItems.
Context `{E : Externals}.
Implicit Types (w : World) (p : path).



Lemma keeps_dirs_raise {X} e : keeps (X:=X) same_dirs (raise e).
Proof. apply (keeps_raise same_dirs same_dirs_refl). Qed.


Lemma distance_sim_func_keeps_dirs test simulation a d fp :
  keeps same_dirs (Distance.sim_func test simulation a d fp).
Proof.
  destruct test; simpl.
  - unfold Distance.calculate_mantel_power. keeps_dirs_bind.
    destruct x as [|x y|]; try apply keeps_dirs_raise.
    do 4 keeps_dirs_bind. apply keeps_dirs_pickle_dump.
  - unfold Distance.calculate_permanova_power. keeps_dirs_bind.
    destruct x as [dm groups| |]; try apply keeps_dirs_raise.
    do 4 keeps_dirs_bind. apply keeps_dirs_pickle_dump.
Qed.


Lemma distance_work_item_keeps_dirs cfg i test :
  keeps same_dirs (Distance.work_item cfg i test).
Proof.
  unfold Distance.work_item. do 2 keeps_dirs_bind.
  destruct (Distance.overwrite cfg || negb _);
    [|apply (keeps_ret same_dirs same_dirs_refl)].
  keeps_dirs_bind. apply distance_sim_func_keeps_dirs.
Qed.


Lemma parametric_work_item_keeps_dirs cfg test_name i :
  keeps same_dirs (Parametric.work_item cfg test_name i).
Proof.
  unfold Parametric.work_item. keeps_dirs_bind.
  destruct (_ && negb (Parametric.overwrite cfg));
    [apply (keeps_ret same_dirs same_dirs_refl)|].
  do 2 keeps_dirs_bind.
  destruct x1 as [| |samples]; try apply keeps_dirs_raise.
  do 4 keeps_dirs_bind. apply keeps_dirs_pickle_dump.
Qed.

End DiskOfWorkItems.

(** ** The directory cell *)

Section Directories.
Context `{E : Externals}.
Implicit Types (w : World) (p : path).

Lemma os_makedirs_ok w p :
  ~ exists_on_disk w p ->
  os_makedirs p w =
    (inr tt, {| dirs := dirs w ∪ list_to_set (prefixes p); files := files w;
                rng := rng w; events := events w |}).
Proof. intros Hp. unfold os_makedirs. by rewrite bool_decide_eq_false_2. Qed.

Lemma make_dirs_returns test w :
  exists w',
    Distance.make_dirs test w = (inr tt, w') /\
    exists_on_disk w' (Distance.sim_dir test) /\
    exists_on_disk w' (Distance.power_dir test) /\
    files w' = files w /\ events w' = events w /\ rng w' = rng w /\
    dirs w ⊆ dirs w'.
Proof.
  destruct (Distance.make_dirs test w) as [r w'] eqn:Hrun.
  assert (r = inr tt /\ files w' = files w /\ events w' = events w /\
          rng w' = rng w /\ dirs w ⊆ dirs w') as (-> & Hf & Hev & Hg & Hd).
  { unfold Distance.make_dirs, mbind, SE_bind, os_path_exists, os_makedirs in Hrun.
    simpl in Hrun.
    repeat (case_bool_decide; simpl in Hrun); injection Hrun as <- <-; simpl;
      repeat split; try done; repeat apply union_subseteq_l'; done. }
  exists w'. split; [done|].
  apply make_dirs_ok_inv in Hrun as [Hs Hp]. done.
Qed.

End Directories.


(** ** What a work item and a run change on disk *)

Section Frame.
Context `{E : Externals}.
Implicit Types (w : World) (p : path).

Lemma extends_files_frame P w w' p :
  extends P w w' -> ~ P (EvDump p) -> files w' !! p = files w !! p.
Proof.
  intros (evs & _ & HP & _ & _ & Hk) Hp. apply Hk. intros Hin.
  rewrite Forall_forall in HP. by apply Hp, HP.
Qed.

Lemma distance_event_dump_output cfg items q :
  distance_event cfg items (EvDump q) -> q ∈ distance_outputs cfg items.
Proof.
  intros (i & test & Hi & Htest & ->). unfold distance_outputs.
  apply list_elem_of_In, in_flat_map. exists i. split; [apply in_seq; lia|].
  apply (in_map (fun t => Distance.power_fp t i)). by apply list_elem_of_In.
Qed.

Lemma parametric_event_dump_output cfg q :
  parametric_event cfg (EvDump q) -> q ∈ parametric_outputs cfg.
Proof.
  intros (test_name & i & Hi & ->). unfold parametric_outputs.
  apply list_elem_of_In, in_flat_map. exists test_name. split.
  - destruct test_name; simpl; tauto.
  - apply in_map, in_seq. lia.
Qed.

Lemma parametric_input_is_not_output test_name i test_name' j :
  Parametric.power_fp test_name' j <> Parametric.sim_fp test_name i.
Proof. done. Qed.

End Frame.

(** A work item leaves the directories as they are and changes no file
    other than its own output [power/<family>/simulation_<i>.p], whether it
    returns or raises. *)
Theorem work_item_changes_only_its_output `{E : Externals} :
  (forall cfg i test (w : World) p,
     p <> Distance.power_fp test i ->
     dirs (Distance.work_item cfg i test w).2 = dirs w /\
     files (Distance.work_item cfg i test w).2 !! p = files w !! p) /\
  (forall cfg test_name i (w : World) p,
     p <> Parametric.power_fp test_name i ->
     dirs (Parametric.work_item cfg test_name i w).2 = dirs w /\
     files (Parametric.work_item cfg test_name i w).2 !! p = files w !! p).
Proof.
  split.
  - intros cfg i test w p Hp. split; [apply distance_work_item_keeps_dirs|].
    eapply extends_files_frame; [apply sound_distance_work_item|]. done.
  - intros cfg test_name i w p Hp.
    split; [apply parametric_work_item_keeps_dirs|].
    eapply extends_files_frame; [apply sound_parametric_work_item|]. done.
Qed.

Lemma work_item_changes_only_its_output_witness :
  let w := Demo.distance_world in
  let p := Distance.simulation_fp Distance.mantel 0 in
  let w' := (Distance.work_item (E:=Demo.externals) Demo.distance_cfg 0
               Distance.mantel w).2 in
  p <> Distance.power_fp Distance.mantel 0 /\
  dirs w' = dirs w /\ files w' !! p = files w !! p.
Proof.
  intros w p w'.
  assert (p <> Distance.power_fp Distance.mantel 0) as Hp by done.
  split; [exact Hp|].
  exact (proj1 (work_item_changes_only_its_output (E:=Demo.externals))
           Demo.distance_cfg 0%nat Distance.mantel w p Hp).
Defined.

(** A run, whether it returns or raises, removes no directory and no
    file, changes no file outside the output files of its work items, and
    in particular leaves every simulation input as it found it. *)
Theorem run_changes_only_output_files `{E : Externals} :
  (forall cfg items (w : World),
     let w' := (Distance.main cfg items w).2 in
     dirs w ⊆ dirs w' /\ dom (files w) ⊆ dom (files w') /\
     (forall p, p ∉ distance_outputs cfg items ->
        files w' !! p = files w !! p) /\
     (forall test i,
        files w' !! Distance.simulation_fp test i
          = files w !! Distance.simulation_fp test i)) /\
  (forall cfg (w : World),
     let w' := (Parametric.main cfg w).2 in
     dirs w ⊆ dirs w' /\ dom (files w) ⊆ dom (files w') /\
     (forall p, p ∉ parametric_outputs cfg -> files w' !! p = files w !! p) /\
     (forall test_name i,
        files w' !! Parametric.sim_fp test_name i
          = files w !! Parametric.sim_fp test_name i)).
Proof.
  split.
  - intros cfg items w w'.
    pose proof (sound_distance_main cfg items w) as Hext. fold w' in Hext.
    pose proof Hext as (evs & _ & _ & Hd & Hf & _).
    split; [done|]. split; [done|]. split.
    + intros p Hp. eapply extends_files_frame; [exact Hext|].
      intros Hq. by apply Hp, distance_event_dump_output.
    + intros test i. eapply extends_files_frame; [exact Hext|].
      intros Hq. by eapply distance_event_dump.
  - intros cfg w w'.
    pose proof (sound_parametric_main cfg w) as Hext. fold w' in Hext.
    pose proof Hext as (evs & _ & _ & Hd & Hf & _).
    split; [done|]. split; [done|]. split.
    + intros p Hp. eapply extends_files_frame; [exact Hext|].
      intros Hq. by apply Hp, parametric_event_dump_output.
    + intros test_name i. eapply extends_files_frame; [exact Hext|].
      intros (t & j & _ & Hq). simpl in Hq.
      by apply (parametric_input_is_not_output test_name i t j).
Qed.

Lemma run_changes_only_output_files_witness :
  let w := Demo.distance_world in
  let items := [Distance.mantel; Distance.permanova] in
  let p := Distance.power_fp Distance.mantel 7 in
  let w' := (Distance.main (E:=Demo.externals) Demo.distance_cfg items w).2 in
  (p ∉ distance_outputs Demo.distance_cfg items) /\
  files w' !! p = files w !! p.
Proof.
  intros w items p w'.
  assert (p ∉ distance_outputs Demo.distance_cfg items) as Hp by compute_done.
  split; [exact Hp|].
  exact (proj1 (proj2 (proj2 (proj1
           (run_changes_only_output_files (E:=Demo.externals))
           Demo.distance_cfg items w))) p Hp).
Defined.



(** ** Paths of the work items *)

Lemma string_length_app (a b : string) :
  String.length (a +:+ b) = (String.length a + String.length b)%nat.
Proof.
  induction a as [|c a IH]; [done|].
  change (Datatypes.S (String.length (a +:+ b))
          = Datatypes.S (String.length a + String.length b)).
  by rewrite IH.
Qed.

Lemma string_app_inv_tail (a b t : string) : a +:+ t = b +:+ t -> a = b.
Proof.
  revert b. induction a as [|c a IH]; intros [|c' b] Heq.
  - done.
  - apply (f_equal String.length) in Heq.
    rewrite !string_length_app in Heq. simpl in Heq. lia.
  - apply (f_equal String.length) in Heq.
    rewrite !string_length_app in Heq. simpl in Heq. lia.
  - change (String c (a +:+ t) = String c' (b +:+ t)) in Heq.
    injection Heq as -> Heq. f_equal. by apply IH.
Qed.

Lemma simulation_file_inj i j : simulation_file i = simulation_file j -> i = j.
Proof.
  unfold simulation_file. intros Heq.
  apply (inj (String.append "simulation_")) in Heq.
  apply string_app_inv_tail in Heq. by apply (inj pretty) in Heq.
Qed.

(** Distinct work items have distinct output files and distinct input
    files, and no output file of one is the input file of another: the work
    items of a run share no file. *)
Theorem work_item_paths_disjoint :
  (forall test i test' j,
     Distance.power_fp test i = Distance.power_fp test' j ->
     test = test' /\ i = j) /\
  (forall test i test' j,
     Distance.simulation_fp test i = Distance.simulation_fp test' j ->
     test = test' /\ i = j) /\
  (forall test i test' j,
     Distance.power_fp test i <> Distance.simulation_fp test' j) /\
  (forall test_name i test_name' j,
     Parametric.power_fp test_name i = Parametric.power_fp test_name' j ->
     test_name = test_name' /\ i = j) /\
  (forall test_name i test_name' j,
     Parametric.sim_fp test_name i = Parametric.sim_fp test_name' j ->
     test_name = test_name' /\ i = j) /\
  (forall test_name i test_name' j,
     Parametric.power_fp test_name i <> Parametric.sim_fp test_name' j).
Proof.
  split; [|split; [|split; [|split; [|split]]]]; try done.
  - intros test i test' j [Hdir Hfile]%app_inj_tail. split;
      [by destruct test, test' | by apply simulation_file_inj].
  - intros test i test' j [Hdir Hfile]%app_inj_tail. split;
      [by destruct test, test' | by apply simulation_file_inj].
  - intros test i test' j [Hdir Hfile]%app_inj_tail. split;
      [by destruct test, test' | by apply simulation_file_inj].
  - intros test i test' j [Hdir Hfile]%app_inj_tail. split;
      [by destruct test, test' | by apply simulation_file_inj].
Qed.

(** ** Keywords, workers and records *)

(** Every estimator call of the distance-based notebook passes the
    configured [alpha] and asks for 100 iterations and 5 runs; no estimator
    call of the parametric notebook passes [alpha] at all, so the [alpha] its
    records store is not a value the estimator was given. *)
Theorem estimator_call_alpha `{E : Externals} :
  (forall cfg items (w : World) c,
     EvEstimate c ∈ new_events w (Distance.main cfg items w).2 ->
     ci_alpha c = Some (Distance.alpha cfg) /\
     ci_num_iter c = 100%nat /\ ci_num_runs c = 5%nat) /\
  (forall cfg (w : World) c,
     EvEstimate c ∈ new_events w (Parametric.main cfg w).2 ->
     ci_alpha c = None).
Proof.
  split.
  - intros cfg items w c (i & test & _ & _ & Hev)%distance_main_events.
    destruct test; simpl in Hev.
    + by destruct Hev as (x & y & counts & _ & ->).
    + by destruct Hev as (dm & groups & counts & _ & ->).
  - intros cfg w c (test_name & i & _ & Hev)%parametric_main_events.
    destruct Hev as (samples & ->). by destruct test_name.
Qed.

Lemma estimator_call_alpha_witness :
  let w := Demo.parametric_world in
  let c := {| ci_pool := [50%nat; 50%nat];
              ci_counts := [5; 15; 25; 35; 45; 55; 65; 75; 85; 95];
              ci_num_iter := 1000; ci_num_runs := 3;
              ci_alpha := None; ci_bootstrap := None;
              ci_draw_mode := None |} in
  EvEstimate c ∈
    new_events w (Parametric.main (E:=Demo.externals) Demo.parametric_cfg w).2 /\
  ci_alpha c = None.
Proof.
  intros w c.
  assert (EvEstimate c ∈
    new_events w (Parametric.main (E:=Demo.externals) Demo.parametric_cfg w).2)
    as Hin.
  { vm_compute. apply list_elem_of_further, list_elem_of_here. }
  split; [exact Hin|].
  exact (proj2 (estimator_call_alpha (E:=Demo.externals))
           Demo.parametric_cfg w c Hin).
Defined.

Section Workers.
Context `{E : Externals}.
Implicit Types (w : World).

Lemma make_all_dirs_returns (items : list Distance.family) w :
  exists w',
    for_each items Distance.make_dirs w = (inr tt, w') /\
    files w' = files w /\ events w' = events w /\ rng w' = rng w /\
    dirs w ⊆ dirs w'.
Proof.
  apply (for_each_invariant
           (fun w1 => files w1 = files w /\ events w1 = events w /\
                      rng w1 = rng w /\ dirs w ⊆ dirs w1)); [|done].
  intros test w1 _ (Hf & Hev & Hg & Hd).
  destruct (make_dirs_returns test w1)
    as (w2 & Hrun & _ & _ & Hf2 & Hev2 & Hg2 & Hd2).
  exists w2. split; [done|]. repeat split; [congruence..|]. by etrans.
Qed.

End Workers.



(** With [overwrite] on, or with no output on disk, a distance-based work
    item that returns has put a fresh record at its output path, whatever
    was there before: it carries the configured [alpha], no closed-form
    curve, the permutation depth for Mantel and none for PERMANOVA. *)
Theorem distance_work_item_replaces_output `{E : Externals}
    cfg i test (w w' : World) :
  Distance.work_item cfg i test w = (inr tt, w') ->
  Distance.overwrite cfg = true \/
    ~ exists_on_disk w (Distance.power_fp test i) ->
  exists s,
    files w' !! Distance.power_fp test i = Some (Summary s) /\
    PowerSummary.alpha s = Distance.alpha cfg /\
    PowerSummary.traditional s = None /\
    PowerSummary.depth s =
      match test with
      | Distance.mantel => Some (Distance.depth cfg)
      | Distance.permanova => None
      end.
Proof.
  unfold Distance.work_item.
  intros (sim & w1 & (_ & _ & ->)%pickle_load_readable & Hrest)%bind_ok_inv Hgo.
  apply bind_ok_inv in Hrest as (e & w1 & [-> He]%os_path_exists_inv & Hrest).
  assert (Distance.overwrite cfg || negb e = true) as Hcond.
  { destruct Hgo as [->|Hne]; [done|]. destruct e; [|by rewrite orb_true_r].
    exfalso. by apply Hne, He. }
  rewrite Hcond in Hrest.
  apply bind_ok_inv in Hrest as ([] & w1 & _ & Hrest).
  unfold Distance.Pool_apply, Distance.sim_func in Hrest. destruct test.
  - apply calculate_mantel_power_ok in Hrest
      as (? & ? & ? & ? & ? & ? & ? & _ & _ & _ & _ & Hfile).
    eexists. split; [exact Hfile|]. done.
  - apply calculate_permanova_power_ok in Hrest
      as (? & ? & ? & ? & ? & ? & ? & _ & _ & _ & _ & Hfile).
    eexists. split; [exact Hfile|]. done.
Qed.

Lemma distance_work_item_replaces_output_witness :
  let fp := Distance.power_fp Distance.mantel 0 in
  let w := Demo.world [Distance.power_dir Distance.mantel]
             [(fp, Corrupt);
              (Distance.simulation_fp Distance.mantel 0,
               Simulation (Paired Demo.forty_dm Demo.forty_dm))] in
  let cfg := distance_set_overwrite true Demo.distance_cfg in
  exists w' s,
    Distance.work_item (E:=Demo.externals) cfg 0 Distance.mantel w = (inr tt, w') /\
    files w !! fp = Some Corrupt /\
    files w' !! fp = Some (Summary s) /\
    PowerSummary.alpha s = Distance.alpha cfg /\
    PowerSummary.traditional s = None /\
    PowerSummary.depth s = Some (Distance.depth cfg).
Proof.
  intros fp w cfg.
  set (w' := (Distance.work_item (E:=Demo.externals) cfg 0 Distance.mantel w).2).
  assert ((Distance.work_item (E:=Demo.externals) cfg 0 Distance.mantel w).1
          = inr tt) as Hfst by (vm_compute; reflexivity).
  pose proof (run_returns _ _ _ Hfst) as Hrun. fold w' in Hrun.
  destruct (distance_work_item_replaces_output (E:=Demo.externals)
              cfg 0%nat Distance.mantel w w' Hrun (or_introl eq_refl))
    as (s & Hs).
  exists w', s. split; [exact Hrun|]. split; [vm_compute; reflexivity | exact Hs].
Defined.

(** A parametric record is written only for a simulation whose
    ['samples'] is a non-empty list of vectors, and for the independent t
    test only for exactly two vectors: with any other shape the work item
    does not return. *)
Theorem parametric_record_needs_shape `{E : Externals}
    cfg test_name i (w w' : World) :
  Parametric.work_item cfg test_name i w = (inr tt, w') ->
  Parametric.overwrite cfg = true \/
    ~ exists_on_disk w (Parametric.power_fp test_name i) ->
  exists samples,
    files w !! Parametric.sim_fp test_name i = Some (Simulation (Vectors samples)) /\
    samples <> [] /\
    (test_name = Parametric.ttest_ind -> length samples = 2%nat).
Proof.
  intros Hrun Hgo.
  destruct (parametric_work_item_ok _ _ _ _ _ Hrun Hgo)
    as (samples & trad & emp & g1 & n & p & Hfile & _ & _ & Hn & Htest & _).
  exists samples. split; [done|]. split.
  - intros ->. done.
  - intros ->. simpl in Htest. unfold Parametric.emp_ttest_ind in Htest.
    by destruct samples as [|a [|b [|c rest]]].
Qed.

Lemma parametric_record_needs_shape_witness :
  let w := Demo.world [Parametric.power_dir Parametric.ttest_ind]
             [(Parametric.sim_fp Parametric.ttest_ind 0,
               Simulation (Vectors Demo.two_groups_of_50))] in
  exists w' samples,
    Parametric.work_item (E:=Demo.externals) Demo.parametric_cfg
      Parametric.ttest_ind 0 w = (inr tt, w') /\
    files w !! Parametric.sim_fp Parametric.ttest_ind 0
      = Some (Simulation (Vectors samples)) /\
    samples <> [] /\
    (Parametric.ttest_ind = Parametric.ttest_ind -> length samples = 2%nat).
Proof.
  intros w.
  set (w' := (Parametric.work_item (E:=Demo.externals) Demo.parametric_cfg
                Parametric.ttest_ind 0 w).2).
  assert ((Parametric.work_item (E:=Demo.externals) Demo.parametric_cfg
             Parametric.ttest_ind 0 w).1
          = inr tt) as Hfst by (vm_compute; reflexivity).
  pose proof (run_returns _ _ _ Hfst) as Hrun. fold w' in Hrun.
  assert (~ exists_on_disk w (Parametric.power_fp Parametric.ttest_ind 0))
    as Hno by (intros [H|H]; revert H; compute_done).
  destruct (parametric_record_needs_shape (E:=Demo.externals)
              Demo.parametric_cfg Parametric.ttest_ind 0%nat w w' Hrun
              (or_intror Hno)) as (samples & Hs).
  exists w', samples. split; [exact Hrun | exact Hs].
Defined.

(** ** The loops as one loop *)

Section LoopShapes.
Context {S : Type}.

Lemma for_each_ext {A} (l : list A) (f g : A -> SE S unit) s :
  (forall x s0, f x s0 = g x s0) -> for_each l f s = for_each l g s.
Proof.
  intros Hfg. revert s. induction l as [|x l IH]; intros s; [done|].
  simpl. unfold mbind, SE_bind. rewrite Hfg.
  destruct (g x s) as [[e|[]] s1]; [done | apply IH].
Qed.

Lemma for_each_map {A B} (g : A -> B) (l : list A) (body : B -> SE S unit) s :
  for_each (map g l) body s = for_each l (fun x => body (g x)) s.
Proof.
  revert s. induction l as [|x l IH]; intros s; [done|].
  simpl. unfold mbind, SE_bind.
  destruct (body (g x) s) as [[e|[]] s1]; [done | apply IH].
Qed.

Lemma for_each_flat_map {A B} (f : A -> list B) (l : list A)
    (body : B -> SE S unit) s :
  for_each (flat_map f l) body s =
  for_each l (fun x => for_each (f x) body) s.
Proof.
  revert s. induction l as [|x l IH]; intros s; [done|].
  simpl. rewrite for_each_app. unfold mbind, SE_bind.
  destruct (for_each (f x) body s) as [[e|[]] s1]; [done | apply IH].
Qed.

(** What the bodies that return append to a projection of the state is
    what the loop appends. *)
Lemma for_each_appends {A T} (g : S -> list T) (h : A -> list T)
    (l : list A) (body : A -> SE S unit) :
  (forall x s s', x ∈ l -> body x s = (inr tt, s') -> g s' = g s ++ h x) ->
  forall s s', for_each l body s = (inr tt, s') -> g s' = g s ++ flat_map h l.
Proof.
  induction l as [|x l IH]; intros Hbody s s' Hrun; simpl in *.
  - injection Hrun as <-. by rewrite app_nil_r.
  - apply bind_ok_inv in Hrun as ([] & s1 & Hx & Hrest).
    rewrite (IH (fun y s0 s0' Hy => Hbody y s0 s0' (list_elem_of_further _ _ _ Hy))
                s1 s' Hrest).
    rewrite (Hbody x s s1 (list_elem_of_here _ _) Hx). by rewrite app_assoc.
Qed.

End LoopShapes.

Lemma flat_map_constant_length {A B} (f : A -> list B) k (l : list A) :
  (forall x, length (f x) = k) -> length (flat_map f l) = (length l * k)%nat.
Proof.
  intros Hk. induction l as [|x l IH]; [done|].
  simpl. rewrite length_app, Hk, IH. lia.
Qed.


Lemma power_loop_flat `{E : Externals} cfg items (w : World) :
  Distance.power_loop cfg items w =
  (Distance.Pool (Distance.num_cpus cfg) ;;
   for_each (distance_work_items cfg items)
     (fun item => Distance.work_item cfg item.1 item.2)) w.
Proof.
  unfold Distance.power_loop, mbind, SE_bind.
  destruct (Distance.Pool (Distance.num_cpus cfg) w) as [[e|[]] w1]; [done|].
  unfold distance_work_items. rewrite for_each_flat_map.
  apply for_each_ext. intros i w2. by rewrite for_each_map.
Qed.

(** The two nested loops of the distance-based notebook are one loop over
    its work items, replicate by replicate and, within a replicate, in the
    order of [distributions.items()]. *)
Theorem power_loop_is_one_loop `{E : Externals} cfg items (w : World) :
  Distance.power_loop cfg items w =
  (Distance.Pool (Distance.num_cpus cfg) ;;
   for_each (distance_work_items cfg items)
     (fun item => Distance.work_item cfg item.1 item.2)) w.
Proof. apply power_loop_flat. Qed.

(** ** Where a run fails *)

Section FailurePoint.
Context `{E : Externals}.
Implicit Types (w : World).



End FailurePoint.



(** ** What a run with [overwrite] on logs *)

Section Traces.
Context `{E : Externals}.
Implicit Types (w : World).

Lemma dumps_app evs1 evs2 : dumps (evs1 ++ evs2) = dumps evs1 ++ dumps evs2.
Proof. apply flat_map_app. Qed.

Lemma estimates_app evs1 evs2 :
  estimates (evs1 ++ evs2) = estimates evs1 ++ estimates evs2.
Proof. apply flat_map_app. Qed.

Lemma new_events_projection {T} (f : list event -> list T) P w w' added :
  (forall evs1 evs2, f (evs1 ++ evs2) = f evs1 ++ f evs2) ->
  extends P w w' ->
  f (events w') = f (events w) ++ added ->
  f (new_events w w') = added.
Proof.
  intros Happ (evs & Hev & _) Hf. unfold new_events.
  rewrite Hev, drop_app_length. rewrite Hev, Happ in Hf.
  by apply app_inv_head in Hf.
Qed.

Lemma sim_func_trace test simulation a d fp w w' :
  Distance.sim_func test simulation a d fp w = (inr tt, w') ->
  exists c, events w' = events w ++ [EvEstimate c; EvDump fp].
Proof.
  destruct test; simpl.
  - unfold Distance.calculate_mantel_power.
    intros (s & w0 & [-> ->]%get_samples_ok_inv & Hrest)%bind_ok_inv.
    destruct s as [|x y|]; try done.
    apply bind_ok_inv in Hrest as (counts & w0 & [_ ->]%or_raise_ok_inv & Hrest).
    apply bind_ok_inv in Hrest
      as (power & w1 & (g1 & _ & ->)%call_subsample_power_ok_inv & Hrest).
    apply bind_ok_inv in Hrest as (p & w2 & (g2 & _ & ->)%with_rng_ok_inv & Hrest).
    apply bind_ok_inv in Hrest as (n & w3 & [_ ->]%or_raise_ok_inv & Hrest).
    apply pickle_dump_ok_inv in Hrest as ->. simpl.
    eexists. by rewrite <- app_assoc.
  - unfold Distance.calculate_permanova_power.
    intros (s & w0 & [-> ->]%get_samples_ok_inv & Hrest)%bind_ok_inv.
    destruct s as [dm groups| |]; try done.
    apply bind_ok_inv in Hrest as (counts & w0 & [_ ->]%or_raise_ok_inv & Hrest).
    apply bind_ok_inv in Hrest
      as (power & w1 & (g1 & _ & ->)%call_subsample_power_ok_inv & Hrest).
    apply bind_ok_inv in Hrest as (p & w2 & (g2 & _ & ->)%with_rng_ok_inv & Hrest).
    apply bind_ok_inv in Hrest as (n & w3 & [_ ->]%or_raise_ok_inv & Hrest).
    apply pickle_dump_ok_inv in Hrest as ->. simpl.
    eexists. by rewrite <- app_assoc.
Qed.

(** A work item that computes logs, in this order: the opening of its
    input, its line of output, one estimator call, one dump. *)
Lemma distance_work_item_trace cfg i test w w' :
  Distance.work_item cfg i test w = (inr tt, w') ->
  Distance.overwrite cfg = true \/
    ~ exists_on_disk w (Distance.power_fp test i) ->
  exists c,
    events w' = events w ++
      [EvLoad (Distance.simulation_fp test i);
       EvPrint (Distance.name test +:+ " sim is a go!");
       EvEstimate c;
       EvDump (Distance.power_fp test i)].
Proof.
  unfold Distance.work_item.
  intros (sim & w1 & (_ & _ & ->)%pickle_load_readable & Hrest)%bind_ok_inv Hgo.
  apply bind_ok_inv in Hrest as (e & w1 & [-> He]%os_path_exists_inv & Hrest).
  assert (Distance.overwrite cfg || negb e = true) as Hcond.
  { destruct Hgo as [->|Hne]; [done|]. destruct e; [|by rewrite orb_true_r].
    exfalso. by apply Hne, He. }
  rewrite Hcond in Hrest.
  apply bind_ok_inv in Hrest as ([] & w1 & [= <-] & Hrest).
  apply sim_func_trace in Hrest as (c & ->). simpl.
  exists c. by rewrite <- !app_assoc.
Qed.

Lemma parametric_work_item_trace cfg test_name i w w' :
  Parametric.work_item cfg test_name i w = (inr tt, w') ->
  Parametric.overwrite cfg = true \/
    ~ exists_on_disk w (Parametric.power_fp test_name i) ->
  exists c,
    events w' = events w ++
      [EvLoad (Parametric.sim_fp test_name i);
       EvEstimate c;
       EvDump (Parametric.power_fp test_name i)].
Proof.
  unfold Parametric.work_item.
  intros (e & w0 & [-> He]%os_path_exists_inv & Hrest)%bind_ok_inv Hcompute.
  assert (e && negb (Parametric.overwrite cfg) = false) as Hskip.
  { destruct Hcompute as [->|Hne]; [apply andb_false_r|].
    destruct e; [|done]. exfalso. by apply Hne, He. }
  rewrite Hskip in Hrest.
  apply bind_ok_inv in Hrest
    as (simulation & w1 & (_ & _ & ->)%pickle_load_readable & Hrest).
  apply bind_ok_inv in Hrest as (s & w1 & [-> ->]%get_samples_ok_inv & Hrest).
  destruct s as [| |samples]; try done.
  apply bind_ok_inv in Hrest as (traditional & w1 & Htrad & Hrest).
  injection Htrad as _ <-.
  apply bind_ok_inv in Hrest
    as (emperical & w1 & (g1 & _ & ->)%call_subsample_power_ok_inv & Hrest).
  apply bind_ok_inv in Hrest as (n & w2 & [_ ->]%or_raise_ok_inv & Hrest).
  apply bind_ok_inv in Hrest as (p & w2 & Hp & Hrest).
  injection Hp as _ <-.
  apply pickle_dump_ok_inv in Hrest as ->. simpl.
  eexists. by rewrite <- !app_assoc.
Qed.

Lemma os_makedirs_events p w : events (os_makedirs p w).2 = events w.
Proof. unfold os_makedirs. by case_bool_decide. Qed.

End Traces.

Lemma flat_map_singleton {A B} (f : A -> B) (l : list A) :
  flat_map (fun x => [f x]) l = map f l.
Proof. induction l as [|x l IH]; [done|]. simpl. by rewrite IH. Qed.

Section RunTraces.
Context `{E : Externals}.
Implicit Types (w : World).
Context {T : Type} (f : list event -> list T).
Hypothesis f_app : forall evs1 evs2, f (evs1 ++ evs2) = f evs1 ++ f evs2.

Lemma distance_loop_projection cfg items (out : nat -> Distance.family -> list T)
    w w' :
  Distance.overwrite cfg = true ->
  (forall i test c,
     f [EvLoad (Distance.simulation_fp test i);
        EvPrint (Distance.name test +:+ " sim is a go!");
        EvEstimate c;
        EvDump (Distance.power_fp test i)] = out i test) ->
  Distance.power_loop cfg items w = (inr tt, w') ->
  f (events w') =
    f (events w) ++
    flat_map (fun i => flat_map (out i) items) (seq 0 (Distance.num_rounds cfg)).
Proof.
  intros Hover Hout. unfold Distance.power_loop.
  intros ([] & w0 & Hpool & Hloop)%bind_ok_inv.
  unfold Distance.Pool in Hpool. case_decide; [done|]. injection Hpool as <-.
  revert w w' Hloop.
  apply (for_each_appends (fun w1 => f (events w1))
           (fun i => flat_map (out i) items)).
  intros i w1 w2 _.
  apply (for_each_appends (fun w3 => f (events w3)) (out i)).
  intros test w3 w4 _ Hitem.
  destruct (distance_work_item_trace _ _ _ _ _ Hitem (or_introl Hover))
    as (c & ->).
  by rewrite f_app, Hout.
Qed.

Lemma distance_main_loop_inv cfg items w w' :
  Distance.main cfg items w = (inr tt, w') ->
  exists w1, events w1 = events w /\
    Distance.power_loop cfg items w1 = (inr tt, w').
Proof.
  unfold Distance.main.
  intros ([] & w0 & [= <-] & Hrun)%bind_ok_inv.
  apply bind_ok_inv in Hrun as (e & w0 & [-> He]%os_path_exists_inv & Hrun).
  destruct e; cbn [negb] in Hrun; [|done].
  apply bind_ok_inv in Hrun as ([] & w1 & Hdirs & Hloop).
  exists w1. split; [|done].
  change (for_each items Distance.make_dirs (np_seed 25 w).2 = (inr tt, w1))
    in Hdirs.
  destruct (make_all_dirs_returns items (np_seed 25 w).2)
    as (w2 & Hdirs' & _ & Hev & _).
  rewrite Hdirs in Hdirs'. by injection Hdirs' as ->.
Qed.

Lemma parametric_family_projection cfg test_name
    (out : Parametric.family -> nat -> list T) w w' :
  Parametric.overwrite cfg = true ->
  (forall t i c,
     f [EvLoad (Parametric.sim_fp t i); EvEstimate c;
        EvDump (Parametric.power_fp t i)] = out t i) ->
  Parametric.family_loop cfg test_name w = (inr tt, w') ->
  f (events w') =
    f (events w) ++
    flat_map (out test_name) (seq 0 (Parametric.num_rounds cfg)).
Proof.
  intros Hover Hout. unfold Parametric.family_loop.
  intros (e & w0 & [-> He]%os_path_exists_inv & Hrest)%bind_ok_inv.
  apply bind_ok_inv in Hrest as ([] & w1 & Hdir & Hloop).
  assert (events w1 = events w) as <-.
  { destruct e; simpl in Hdir; [by injection Hdir as <-|].
    pose proof (os_makedirs_events (Parametric.power_dir test_name) w) as Hev.
    by rewrite Hdir in Hev. }
  clear Hdir He. revert w1 w' Hloop.
  apply (for_each_appends (fun w1 => f (events w1)) (out test_name)).
  intros i w3 w4 _ Hitem.
  destruct (parametric_work_item_trace _ _ _ _ _ Hitem (or_introl Hover))
    as (c & ->).
  by rewrite f_app, Hout.
Qed.

Lemma parametric_main_projection cfg
    (out : Parametric.family -> nat -> list T) w w' :
  Parametric.overwrite cfg = true ->
  (forall t i c,
     f [EvLoad (Parametric.sim_fp t i); EvEstimate c;
        EvDump (Parametric.power_fp t i)] = out t i) ->
  Parametric.main cfg w = (inr tt, w') ->
  f (events w') =
    f (events w) ++
    flat_map (fun t => flat_map (out t) (seq 0 (Parametric.num_rounds cfg)))
             Parametric.parametric.
Proof.
  intros Hover Hout. unfold Parametric.main.
  intros (e & w0 & [-> He]%os_path_exists_inv & Hrun)%bind_ok_inv.
  destruct e; cbn [negb] in Hrun; [|done].
  clear He. revert w w' Hrun.
  apply (for_each_appends (fun w1 => f (events w1))
           (fun t => flat_map (out t) (seq 0 (Parametric.num_rounds cfg)))).
  intros t w1 w2 _. by apply parametric_family_projection.
Qed.

End RunTraces.

(** A run with [overwrite] on that returns has made exactly one estimator
    call and one dump per work item, and has dumped to the output files in
    the order of the loops: replicate by replicate for the distance-based
    notebook, family by family for the parametric one. *)
Theorem overwrite_run_dumps_every_output `{E : Externals} :
  (forall cfg items (w w' : World),
     Distance.overwrite cfg = true ->
     Distance.main cfg items w = (inr tt, w') ->
     dumps (new_events w w') = distance_outputs cfg items /\
     length (estimates (new_events w w')) =
       (Distance.num_rounds cfg * length items)%nat) /\
  (forall cfg (w w' : World),
     Parametric.overwrite cfg = true ->
     Parametric.main cfg w = (inr tt, w') ->
     dumps (new_events w w') = parametric_outputs cfg /\
     length (estimates (new_events w w')) =
       (5 * Parametric.num_rounds cfg)%nat).
Proof.
  split.
  - intros cfg items w w' Hover Hrun.
    pose proof (sound_distance_main cfg items w) as Hext.
    rewrite Hrun in Hext. simpl in Hext.
    apply distance_main_loop_inv in Hrun as (w1 & Hev & Hloop). split.
    + apply (new_events_projection dumps _ _ _ _ dumps_app Hext).
      rewrite <- Hev.
      rewrite (distance_loop_projection dumps dumps_app cfg items
                 (fun i test => [Distance.power_fp test i]) w1 w' Hover
                 (fun _ _ _ => eq_refl) Hloop).
      f_equal; try (unfold distance_outputs; apply flat_map_ext;
                    intros i; apply flat_map_singleton).
    + rewrite <- (length_fmap (fun _ => tt)).
      rewrite (new_events_projection
                 (fun evs => (fun _ => tt) <$> estimates evs) _ _ _
                 (flat_map (fun i : nat =>
                              flat_map (fun _ : Distance.family => [tt]) items)
                           (seq 0 (Distance.num_rounds cfg)))
                 (fun a b => eq_trans (f_equal _ (estimates_app a b))
                                      (fmap_app _ _ _)) Hext).
      * rewrite (flat_map_constant_length _ (length items)), length_seq; [done|].
        intros i. rewrite (flat_map_constant_length _ 1%nat); [lia | done].
      * rewrite <- Hev.
        by apply (distance_loop_projection
                    (fun evs => (fun _ => tt) <$> estimates evs)
                    (fun a b => eq_trans (f_equal _ (estimates_app a b))
                                         (fmap_app _ _ _))
                    cfg items (fun _ _ => [tt])).
  - intros cfg w w' Hover Hrun.
    pose proof (sound_parametric_main cfg w) as Hext.
    rewrite Hrun in Hext. simpl in Hext. split.
    + apply (new_events_projection dumps _ _ _ _ dumps_app Hext).
      rewrite (parametric_main_projection dumps dumps_app cfg
                 (fun t i => [Parametric.power_fp t i]) w w' Hover
                 (fun _ _ _ => eq_refl) Hrun).
      f_equal; try (unfold parametric_outputs; apply flat_map_ext;
                    intros t; apply flat_map_singleton).
    + rewrite <- (length_fmap (fun _ => tt)).
      rewrite (new_events_projection
                 (fun evs => (fun _ => tt) <$> estimates evs) _ _ _
                 (flat_map (fun _ : Parametric.family =>
                              flat_map (fun _ : nat => [tt])
                                       (seq 0 (Parametric.num_rounds cfg)))
                           Parametric.parametric)
                 (fun a b => eq_trans (f_equal _ (estimates_app a b))
                                      (fmap_app _ _ _)) Hext).
      * rewrite (flat_map_constant_length _ (Parametric.num_rounds cfg));
          [done|].
        intros t. rewrite (flat_map_constant_length _ 1%nat), length_seq;
          [lia | done].
      * by apply (parametric_main_projection
                    (fun evs => (fun _ => tt) <$> estimates evs)
                    (fun a b => eq_trans (f_equal _ (estimates_app a b))
                                         (fmap_app _ _ _))
                    cfg (fun _ _ => [tt])).
Qed.

Lemma overwrite_run_dumps_every_output_witness :
  let cfg := distance_set_overwrite true Demo.distance_cfg in
  let items := [Distance.mantel; Distance.permanova] in
  let w := Demo.distance_world in
  exists w',
    Distance.overwrite cfg = true /\
    Distance.main (E:=Demo.externals) cfg items w = (inr tt, w') /\
    dumps (new_events w w') = distance_outputs cfg items /\
    length (estimates (new_events w w')) =
      (Distance.num_rounds cfg * length items)%nat.
Proof.
  intros cfg items w.
  set (w' := (Distance.main (E:=Demo.externals) cfg items w).2).
  assert ((Distance.main (E:=Demo.externals) cfg items w).1
          = inr tt) as Hfst by (vm_compute; reflexivity).
  pose proof (run_returns _ _ _ Hfst) as Hrun. fold w' in Hrun.
  exists w'. split; [reflexivity|]. split; [exact Hrun|].
  exact (proj1 (overwrite_run_dumps_every_output (E:=Demo.externals))
           cfg items w w' eq_refl Hrun).
Defined.

(** ** With [overwrite] off nothing that exists is written to *)

Section FreshDumps.
Context `{E : Externals}.
Implicit Types (w : World).

Lemma fresh_dumps_refl w : fresh_dumps w w.
Proof.
  exists []. rewrite app_nil_r. repeat split; try done.
  by intros p ?%elem_of_nil.
Qed.

Lemma fresh_dumps_trans w1 w2 w3 :
  fresh_dumps w1 w2 -> fresh_dumps w2 w3 -> fresh_dumps w1 w3.
Proof.
  intros (evs1 & Hev1 & Hd1 & Hf1 & Hk1 & Hn1) (evs2 & Hev2 & Hd2 & Hf2 & Hk2 & Hn2).
  exists (evs1 ++ evs2). split; [by rewrite Hev2, Hev1, app_assoc|].
  split; [by etrans|]. split; [by etrans|]. split.
  - intros p Hp. rewrite Hk2, Hk1; [done|..];
      intros Hin; apply Hp, elem_of_app; [by left | by right].
  - intros p [Hin|Hin]%elem_of_app; [by apply Hn1|].
    intros [Hp|Hp]; apply (Hn2 p Hin); [left; by apply Hd1 | right; by apply Hf1].
Qed.

Lemma fresh_dumps_quiet w w' :
  events w' = events w -> dirs w ⊆ dirs w' -> files w' = files w ->
  fresh_dumps w w'.
Proof.
  intros Hev Hd Hf. exists []. rewrite app_nil_r, Hf.
  repeat split; try done. by intros p ?%elem_of_nil.
Qed.

Lemma extends_fresh_dumps P w w' :
  extends P w w' ->
  (forall p, EvDump p ∈ new_events w w' -> ~ exists_on_disk w p) ->
  fresh_dumps w w'.
Proof.
  intros (evs & Hev & _ & Hd & Hf & Hk) Hfresh. exists evs.
  repeat (split; [done|]). intros p Hin. apply Hfresh.
  unfold new_events. by rewrite Hev, drop_app_length.
Qed.

Lemma distance_work_item_fresh cfg i test :
  Distance.overwrite cfg = false ->
  keeps fresh_dumps (Distance.work_item cfg i test).
Proof.
  intros Hover w.
  eapply extends_fresh_dumps; [apply sound_distance_work_item|].
  intros p Hin Hexists.
  pose proof (distance_work_item_events _ _ _ _ _ Hin) as Hp. simpl in Hp.
  subst p.
  rewrite (distance_work_item_skip_world _ _ _ _ Hover Hexists) in Hin.
  unfold new_events in Hin. simpl in Hin. rewrite drop_app_length in Hin.
  by apply list_elem_of_singleton in Hin.
Qed.

Lemma parametric_work_item_fresh cfg test_name i :
  Parametric.overwrite cfg = false ->
  keeps fresh_dumps (Parametric.work_item cfg test_name i).
Proof.
  intros Hover w.
  eapply extends_fresh_dumps; [apply sound_parametric_work_item|].
  intros p Hin Hexists.
  pose proof (parametric_work_item_events _ _ _ _ _ Hin) as Hp. simpl in Hp.
  subst p.
  rewrite (parametric_work_item_skip _ _ _ _ Hover Hexists) in Hin.
  unfold new_events in Hin. simpl in Hin. rewrite drop_all in Hin.
  by apply elem_of_nil in Hin.
Qed.

Lemma keeps_fresh_os_path_exists p : keeps fresh_dumps (os_path_exists p).
Proof. intros w. apply fresh_dumps_refl. Qed.

Lemma keeps_fresh_os_makedirs p : keeps fresh_dumps (os_makedirs p).
Proof.
  intros w. apply fresh_dumps_quiet.
  - apply os_makedirs_events.
  - unfold os_makedirs. case_bool_decide; simpl; [done | apply union_subseteq_l].
  - unfold os_makedirs. by case_bool_decide.
Qed.

Lemma distance_main_fresh cfg items :
  Distance.overwrite cfg = false ->
  keeps fresh_dumps (Distance.main cfg items).
Proof.
  intros Hover. unfold Distance.main.
  apply (keeps_bind _ fresh_dumps_trans);
    [intros w; by apply fresh_dumps_quiet|]. intros _.
  apply (keeps_bind _ fresh_dumps_trans); [apply keeps_fresh_os_path_exists|].
  intros e. destruct e; cbn [negb]; [|apply (keeps_raise _ fresh_dumps_refl)].
  apply (keeps_bind _ fresh_dumps_trans).
  { apply (keeps_for_each _ fresh_dumps_refl fresh_dumps_trans).
    intros test _ w.
    destruct (make_dirs_returns test w) as (w' & Hrun & _ & _ & Hf & Hev & _ & Hd).
    rewrite Hrun. by apply fresh_dumps_quiet. }
  intros _. unfold Distance.power_loop.
  apply (keeps_bind _ fresh_dumps_trans).
  { unfold Distance.Pool. case_decide;
      [apply (keeps_raise _ fresh_dumps_refl)
      | apply (keeps_ret _ fresh_dumps_refl)]. }
  intros _. apply (keeps_for_each _ fresh_dumps_refl fresh_dumps_trans).
  intros i _. apply (keeps_for_each _ fresh_dumps_refl fresh_dumps_trans).
  intros test _. by apply distance_work_item_fresh.
Qed.

Lemma parametric_main_fresh cfg :
  Parametric.overwrite cfg = false ->
  keeps fresh_dumps (Parametric.main cfg).
Proof.
  intros Hover. unfold Parametric.main.
  apply (keeps_bind _ fresh_dumps_trans); [apply keeps_fresh_os_path_exists|].
  intros e. destruct e; cbn [negb]; [|apply (keeps_raise _ fresh_dumps_refl)].
  apply (keeps_for_each _ fresh_dumps_refl fresh_dumps_trans).
  intros test_name _. unfold Parametric.family_loop.
  apply (keeps_bind _ fresh_dumps_trans); [apply keeps_fresh_os_path_exists|].
  intros e. apply (keeps_bind _ fresh_dumps_trans).
  { destruct e; [apply (keeps_ret _ fresh_dumps_refl)
                | apply keeps_fresh_os_makedirs]. }
  intros _. apply (keeps_for_each _ fresh_dumps_refl fresh_dumps_trans).
  intros i _. by apply parametric_work_item_fresh.
Qed.

Lemma fresh_dumps_keeps_existing w w' p :
  fresh_dumps w w' -> p ∈ dom (files w) -> files w' !! p = files w !! p.
Proof.
  intros (evs & Hev & _ & _ & Hk & Hn) Hp. apply Hk.
  intros Hin. apply (Hn p Hin). by right.
Qed.

Lemma fresh_dumps_new_events w w' p :
  fresh_dumps w w' -> EvDump p ∈ new_events w w' -> ~ exists_on_disk w p.
Proof.
  intros (evs & Hev & _ & _ & _ & Hn). unfold new_events.
  rewrite Hev, drop_app_length. apply Hn.
Qed.

End FreshDumps.

(** With [overwrite] off, a run, whether it returns or raises part of the
    way, dumps only to paths at which nothing existed when it started:
    every file that was on disk before the run, outputs of earlier runs
    included, holds what it held. *)
Theorem overwrite_off_never_rewrites `{E : Externals} :
  (forall cfg items (w : World),
     Distance.overwrite cfg = false ->
     let w' := (Distance.main cfg items w).2 in
     (forall p, EvDump p ∈ new_events w w' -> ~ exists_on_disk w p) /\
     (forall p, p ∈ dom (files w) -> files w' !! p = files w !! p)) /\
  (forall cfg (w : World),
     Parametric.overwrite cfg = false ->
     let w' := (Parametric.main cfg w).2 in
     (forall p, EvDump p ∈ new_events w w' -> ~ exists_on_disk w p) /\
     (forall p, p ∈ dom (files w) -> files w' !! p = files w !! p)).
Proof.
  split.
  - intros cfg items w Hover w'.
    pose proof (distance_main_fresh cfg items Hover w) as Hfresh. split.
    + intros p. by apply fresh_dumps_new_events.
    + intros p. by apply fresh_dumps_keeps_existing.
  - intros cfg w Hover w'.
    pose proof (parametric_main_fresh cfg Hover w) as Hfresh. split.
    + intros p. by apply fresh_dumps_new_events.
    + intros p. by apply fresh_dumps_keeps_existing.
Qed.

Lemma overwrite_off_never_rewrites_witness :
  let fp := Distance.power_fp Distance.mantel 0 in
  let w := Demo.world [Distance.sim_location]
             [(fp, Corrupt);
              (Distance.simulation_fp Distance.mantel 0,
               Simulation (Paired Demo.forty_dm Demo.forty_dm))] in
  let w' := (Distance.main (E:=Demo.externals) Demo.distance_cfg
               [Distance.mantel] w).2 in
  Distance.overwrite Demo.distance_cfg = false /\
  fp ∈ dom (files w) /\
  files w' !! fp = files w !! fp.
Proof.
  intros fp w w'.
  assert (fp ∈ dom (files w)) as Hin by compute_done.
  split; [reflexivity|]. split; [exact Hin|].
  exact (proj2 (proj1 (overwrite_off_never_rewrites (E:=Demo.externals))
           Demo.distance_cfg [Distance.mantel] w eq_refl) fp Hin).
Defined.


Lemma work_item_paths_disjoint_witness :
  Distance.power_fp Distance.mantel 3 = Distance.power_fp Distance.mantel 3 /\
  Distance.mantel = Distance.mantel /\ 3%nat = 3%nat.
Proof.
  split; [reflexivity|].
  exact (proj1 work_item_paths_disjoint Distance.mantel 3%nat
           Distance.mantel 3%nat eq_refl).
Defined.
